(** * Dining philosophers: a shallow embedding of [dining_philosophers.py]

    The development follows the layout of the Python module: the strategy
    enumeration, the fork, the philosopher with its three acquisition
    strategies, the dining table (setup, start, report) and the entry point.

    Conventions of the embedding:
    - Python integers are [Z]; list indexing, [%] and [range] are written
      out with the exceptions they can raise.
    - Durations passed to [time.sleep] are counted in milliseconds
      ([0.1] s is [100], [0.2] s is [200], [0.5] s is [500]).
    - A [threading.Lock] is identified by its address in the lock store of
      the run; two references to one [Fork] object carry the same address.
    - Calls to the logger have no effect on the state and are left out.
    - Threads are interleaved: one step of the system is one instruction of
      one thread.  The wall clock is not modelled: the reading of the clock
      at the loop test of a philosopher is an input of its step, and a
      [join] with a timeout may return at any time. *)

From Stdlib Require Import ZArith Lia Ascii String.
From stdpp Require Import base numbers list gmap strings.

Local Open Scope Z_scope.

(** ** Python primitives *)

Inductive exn : Type :=
  | ValueError
  | IndexError
  | ZeroDivisionError
  | RuntimeError
  | OverflowError
  | OSError.

Inductive result (A : Type) : Type :=
  | Ok (a : A)
  | Raise (e : exn).

Arguments Ok {A} a.
Arguments Raise {A} e.

Definition rbind {A B : Type} (r : result A) (k : A -> result B) : result B :=
  match r with
  | Ok a => k a
  | Raise e => Raise e
  end.

#[global] Instance result_bind : MBind result :=
  fun A B k r => rbind r k.

(** [range(n)]: the integers [0 .. n-1], empty when [n <= 0]. *)
Definition range (n : Z) : list Z := map Z.of_nat (seq 0 (Z.to_nat n)).

(** [l[i]] with Python's negative indices and [IndexError]. *)
Definition py_getitem {A : Type} (l : list A) (i : Z) : result A :=
  let len := Z.of_nat (length l) in
  let j := if i <? 0 then i + len else i in
  if (0 <=? j) && (j <? len) then
    match l !! Z.to_nat j with
    | Some x => Ok x
    | None => Raise IndexError
    end
  else Raise IndexError.

(** [a % b]: floor modulus, [ZeroDivisionError] on a zero divisor. *)
Definition py_mod (a b : Z) : result Z :=
  if b =? 0 then Raise ZeroDivisionError else Ok (a mod b).

(** Strings are sequences of bytes, the UTF-8 encoding of Python's text.
    [str.lower] is Python's Unicode lower-casing, a function of the standard
    library; the module calls it on [sys.argv[1]], and [main] below takes it
    as its parameter [lower].  What is used of it is its effect on ASCII
    text: [A]-[Z] become [a]-[z] and every other character is kept. *)
Definition ascii_lower (c : ascii) : ascii :=
  let n := N_of_ascii c in
  if ((65 <=? n) && (n <=? 90))%N then ascii_of_N (n + 32) else c.

Fixpoint lower_ascii (s : string) : string :=
  match s with
  | EmptyString => EmptyString
  | String c r => String (ascii_lower c) (lower_ascii r)
  end.

Fixpoint is_ascii (s : string) : bool :=
  match s with
  | EmptyString => true
  | String c r => (N_of_ascii c <? 128)%N && is_ascii r
  end.

(** The function agrees with [str.lower] on ASCII text. *)
Definition lowers_ascii (lower : string -> string) : Prop :=
  forall a, is_ascii a = true -> lower a = lower_ascii a.

(** ** Strategy enumeration *)

Inductive Strategy : Type :=
  | DEADLOCK
  | HIERARCHY
  | ASYMMETRIC.

Definition Strategy_value (s : Strategy) : string :=
  match s with
  | DEADLOCK => "deadlock"
  | HIERARCHY => "hierarchy"
  | ASYMMETRIC => "asymmetric"
  end.

(** [Strategy(name)]: lookup of a member by value, [ValueError] otherwise. *)
Definition Strategy_of_value (name : string) : result Strategy :=
  if String.eqb name "deadlock" then Ok DEADLOCK
  else if String.eqb name "hierarchy" then Ok HIERARCHY
  else if String.eqb name "asymmetric" then Ok ASYMMETRIC
  else Raise ValueError.

(** ** Fork *)

(** [Fork(fork_id)]: the id and the lock created by the constructor. *)
Record Fork : Type := mkFork {
  fork_id : Z;
  fork_lock : nat
}.

(** ** Philosopher *)

Record Philosopher : Type := mkPhilosopher {
  phil_id : Z;
  left_fork : Fork;
  right_fork : Fork;
  strategy : Strategy;
  duration : Z;
  meals_eaten : Z;
  running : bool
}.

(** [Philosopher.__init__] *)
Definition Philosopher_init (i : Z) (l r : Fork) (s : Strategy) (d : Z)
  : Philosopher :=
  mkPhilosopher i l r s d 0 true.

(** The instructions a philosopher thread executes. *)
Inductive instr : Type :=
  | Sleep (ms : Z)
  | IncMeals
  | Acquire (f : Fork)
  | Release (f : Fork).

(** [with f.lock: body] *)
Definition with_lock (f : Fork) (body : list instr) : list instr :=
  Acquire f :: body ++ [Release f].

Definition think : list instr := [Sleep 100].

Definition eat : list instr := [Sleep 200; IncMeals].

Definition deadlock_strategy (p : Philosopher) : list instr :=
  with_lock (left_fork p)
    (Sleep 500 :: with_lock (right_fork p) eat).

(** [min(a, b, key=lambda f: f.id)]: the first of the smallest. *)
Definition min_by_id (a b : Fork) : Fork :=
  if fork_id b <? fork_id a then b else a.

(** [max(a, b, key=lambda f: f.id)]: the first of the largest. *)
Definition max_by_id (a b : Fork) : Fork :=
  if fork_id a <? fork_id b then b else a.

Definition hierarchy_strategy (p : Philosopher) : list instr :=
  let first_fork := min_by_id (left_fork p) (right_fork p) in
  let second_fork := max_by_id (left_fork p) (right_fork p) in
  with_lock first_fork (with_lock second_fork eat).

Definition asymmetric_strategy (p : Philosopher) : list instr :=
  if phil_id p mod 2 =? 0 then
    with_lock (left_fork p) (with_lock (right_fork p) eat)
  else
    with_lock (right_fork p) (with_lock (left_fork p) eat).

(** One iteration of the loop of [Philosopher.run]. *)
Definition cycle (p : Philosopher) : list instr :=
  think ++
  match strategy p with
  | DEADLOCK => deadlock_strategy p
  | HIERARCHY => hierarchy_strategy p
  | ASYMMETRIC => asymmetric_strategy p
  end.

(** [Philosopher.stop] *)
Definition stop (p : Philosopher) : Philosopher :=
  mkPhilosopher (phil_id p) (left_fork p) (right_fork p) (strategy p)
    (duration p) (meals_eaten p) false.

(** [self.meals_eaten += 1] *)
Definition add_meal (p : Philosopher) : Philosopher :=
  mkPhilosopher (phil_id p) (left_fork p) (right_fork p) (strategy p)
    (duration p) (meals_eaten p + 1) (running p).

(** The forks a thread is holding after it has executed [done]: the stack of
    the [with] blocks it is inside of, innermost first. *)
Definition enter (h : list Fork) (i : instr) : list Fork :=
  match i with
  | Acquire f => f :: h
  | Release _ => tail h
  | _ => h
  end.

Definition holding (done : list instr) : list Fork :=
  fold_left enter done [].

(** The forks in the order they are acquired, and in the order they are
    released. *)
Definition acquisitions (prog : list instr) : list Fork :=
  omap (fun i => match i with Acquire f => Some f | _ => None end) prog.

Definition releases (prog : list instr) : list Fork :=
  omap (fun i => match i with Release f => Some f | _ => None end) prog.

(** ** Dining table *)

Record DiningTable : Type := mkDiningTable {
  num_philosophers : Z;
  table_strategy : Strategy;
  table_duration : Z;
  forks : list Fork;
  philosophers : list Philosopher
}.

(** [DiningTable.__init__] *)
Definition DiningTable_init (n : Z) (s : Strategy) (d : Z) : DiningTable :=
  mkDiningTable n s d [] [].

Definition set_forks (t : DiningTable) (fs : list Fork) : DiningTable :=
  mkDiningTable (num_philosophers t) (table_strategy t) (table_duration t)
    fs (philosophers t).

Definition append_philosopher (t : DiningTable) (p : Philosopher)
  : DiningTable :=
  mkDiningTable (num_philosophers t) (table_strategy t) (table_duration t)
    (forks t) (philosophers t ++ [p]).

(** The loop [for i in range(self.num_philosophers)] of [setup]. *)
Fixpoint setup_loop (t : DiningTable) (idxs : list Z)
  : result DiningTable :=
  match idxs with
  | [] => Ok t
  | i :: rest =>
      l ← py_getitem (forks t) i;
      m ← py_mod (i + 1) (num_philosophers t);
      r ← py_getitem (forks t) m;
      setup_loop
        (append_philosopher t
           (Philosopher_init i l r (table_strategy t) (table_duration t)))
        rest
  end.

(** [DiningTable.setup]: fork [i] is the [i]-th allocation of the run, so
    its lock lives at address [i]. *)
Definition setup (t : DiningTable) : result DiningTable :=
  let fs := map (fun i => mkFork i (Z.to_nat i)) (range (num_philosophers t)) in
  setup_loop (set_forks t fs) (range (num_philosophers t)).

(** The neighbour assignment of a table: for each philosopher its id and the
    ids of its left and right forks. *)
Definition topology (t : DiningTable) : list (Z * Z * Z) :=
  map (fun p => (phil_id p, fork_id (left_fork p), fork_id (right_fork p)))
    (philosophers t).

(** ** Threads and the state of a run *)

(** Where a philosopher thread is: not yet started, at the test of the
    [while] loop of [run], inside an iteration with [rest] still to execute,
    returned from [run], or terminated by an exception. *)
Inductive control : Type :=
  | NotStarted
  | LoopTop
  | Body (rest : list instr)
  | Finished
  | Crashed (e : exn).

(** A philosopher thread: the [Philosopher] object, the point of control,
    and the forks whose [with] blocks the thread is inside of, innermost
    first. *)
Record thread : Type := mkThread {
  self : Philosopher;
  ctl : control;
  held : list Fork
}.

(** [Thread.is_alive]: started and not yet terminated. *)
Definition is_alive (t : thread) : bool :=
  match ctl t with
  | LoopTop | Body _ => true
  | NotStarted | Finished | Crashed _ => false
  end.

(** Where the main thread is inside [DiningTable.start]. *)
Inductive main_control : Type :=
  | MStart (k : nat)
  | MSleep
  | MStop (k : nat)
  | MJoin (k : nat)
  | MReport
  | MReturned
  | MRaised (e : exn).

Record Report : Type := mkReport {
  total_meals : Z;
  alive_count : Z;
  deadlock_detected : bool
}.

(** The state of a run: the duration [start] sleeps for, the philosopher
    threads, the addresses of the locks that are taken, the main thread and
    the report once it is made. *)
Record world : Type := mkWorld {
  sim_duration : Z;
  threads : list thread;
  locked : gset nat;
  main_ctl : main_control;
  report : option Report
}.

Definition set_thread (w : world) (i : nat) (t : thread) : world :=
  mkWorld (sim_duration w) (<[i := t]> (threads w)) (locked w) (main_ctl w)
    (report w).

Definition set_locked (w : world) (l : gset nat) : world :=
  mkWorld (sim_duration w) (threads w) l (main_ctl w) (report w).

Definition set_main (w : world) (m : main_control) : world :=
  mkWorld (sim_duration w) (threads w) (locked w) m (report w).

Definition set_report (w : world) (r : Report) : world :=
  mkWorld (sim_duration w) (threads w) (locked w) (main_ctl w) (Some r).

(** One instruction of a thread.  [None]: the thread is blocked on a lock
    that is taken.  Releasing a lock that is not locked raises
    [RuntimeError], as [threading.Lock.release] does. *)
Definition exec_instr (ins : instr) (rest : list instr) (t : thread)
    (l : gset nat) : option (thread * gset nat) :=
  match ins with
  | Sleep _ => Some (mkThread (self t) (Body rest) (held t), l)
  | IncMeals => Some (mkThread (add_meal (self t)) (Body rest) (held t), l)
  | Acquire f =>
      if decide (fork_lock f ∈ l) then None
      else Some (mkThread (self t) (Body rest) (f :: held t),
                 {[fork_lock f]} ∪ l)
  | Release f =>
      if decide (fork_lock f ∈ l) then
        Some (mkThread (self t) (Body rest) (tail (held t)),
              l ∖ {[fork_lock f]})
      else Some (mkThread (self t) (Crashed RuntimeError) (held t), l)
  end.

(** The test of the [while] loop of [run]:
    [self.running and (time.time() - start_time) < self.duration].
    [time_up] says that the clock has reached the duration; the elapsed
    time is not negative, so a duration that is not positive has been
    reached from the start. *)
Definition loop_test (p : Philosopher) (time_up : bool) : bool :=
  running p && negb (time_up || (duration p <=? 0)).

(** One step of philosopher thread [i], with the reading [time_up] of the
    clock if the thread is at the top of its loop. *)
Definition phil_step (i : nat) (time_up : bool) (w : world) : option world :=
  match threads w !! i with
  | None => None
  | Some t =>
      match ctl t with
      | NotStarted | Finished | Crashed _ => None
      | LoopTop =>
          if loop_test (self t) time_up then
            Some (set_thread w i
                    (mkThread (self t) (Body (cycle (self t))) (held t)))
          else
            Some (set_thread w i (mkThread (self t) Finished (held t)))
      | Body [] =>
          Some (set_thread w i (mkThread (self t) LoopTop (held t)))
      | Body (ins :: rest) =>
          match exec_instr ins rest t (locked w) with
          | None => None
          | Some (t', l') => Some (set_locked (set_thread w i t') l')
          end
      end
  end.

(** [DiningTable.report_results]: the figures it computes. *)
Definition report_results (ths : list thread) : Report :=
  let total := foldr Z.add 0 (map (fun t => meals_eaten (self t)) ths) in
  let alive := Z.of_nat (length (filter (fun t => is_alive t = true) ths)) in
  mkReport total alive (0 <? alive).

(** [time.sleep(d)] for an integer [d].  A negative [d] is refused with
    [ValueError]; a [d] that does not fit the 64-bit count of nanoseconds of
    the interpreter is refused with [OverflowError], whatever its sign. *)
Definition sleep_limit : Z := 9223372036.

Definition sleep_error (d : Z) : option exn :=
  if (d <? - sleep_limit) || (sleep_limit <? d) then Some OverflowError
  else if d <? 0 then Some ValueError
  else None.

(** Beyond what every platform can represent as a time, [time.sleep] may
    also fail where [sleep_error] lets it pass, or fail with another
    exception: a deadline the system clock cannot hold gives [OSError], a
    32-bit time gives [OverflowError].  Durations of up to [2^31 - 1]
    seconds are accepted everywhere. *)
Definition sleep_safe : Z := 2147483647.

Definition sleep_may_raise (d : Z) (e : exn) : Prop :=
  (d < - sleep_safe \/ sleep_safe < d) /\ (e = OverflowError \/ e = OSError).

(** One step of the main thread inside [DiningTable.start].  A
    [join(timeout=2.0)] returns when the thread has terminated or when the
    timeout has expired; without a clock it may return at any time. *)
Definition main_step (w : world) : option world :=
  match main_ctl w with
  | MStart k =>
      match threads w !! k with
      | Some t =>
          match ctl t with
          | NotStarted =>
              Some (set_main
                      (set_thread w k (mkThread (self t) LoopTop (held t)))
                      (MStart (S k)))
          | _ => Some (set_main w (MRaised RuntimeError))
          end
      | None => Some (set_main w MSleep)
      end
  | MSleep =>
      match sleep_error (sim_duration w) with
      | Some e => Some (set_main w (MRaised e))
      | None => Some (set_main w (MStop 0))
      end
  | MStop k =>
      match threads w !! k with
      | Some t =>
          Some (set_main
                  (set_thread w k (mkThread (stop (self t)) (ctl t) (held t)))
                  (MStop (S k)))
      | None => Some (set_main w (MJoin 0))
      end
  | MJoin k =>
      match threads w !! k with
      | Some _ => Some (set_main w (MJoin (S k)))
      | None => Some (set_main w MReport)
      end
  | MReport =>
      Some (set_main (set_report w (report_results (threads w))) MReturned)
  | MReturned | MRaised _ => None
  end.

Inductive step : world -> world -> Prop :=
  | step_main w w' :
      main_step w = Some w' -> step w w'
  | step_phil i time_up w w' :
      phil_step i time_up w = Some w' -> step w w'
  | step_sleep_raises e w :
      main_ctl w = MSleep -> sleep_may_raise (sim_duration w) e ->
      step w (set_main w (MRaised e)).

(** The state in which [DiningTable.start] is entered. *)
Definition initial_world (t : DiningTable) : world :=
  mkWorld (table_duration t)
    (map (fun p => mkThread p NotStarted []) (philosophers t))
    ∅ (MStart 0) None.

Definition reachable (t : DiningTable) (w : world) : Prop :=
  rtc step (initial_world t) w.

(** ** Entry point *)

Inductive main_outcome : Type :=
  | SysExit (status : Z)
  | Uncaught (e : exn)
  | Simulate (w : world).

(** [main], up to the call of [table.start()]: [MODE], [NUM_PHILOSOPHERS]
    and [SIMULATION_TIME] are the module's configuration constants, [argv]
    is [sys.argv] and [lower] is [str.lower]. *)
Definition strategy_name (lower : string -> string) (MODE : string)
    (argv : list string) : string :=
  match argv with
  | _ :: a :: _ => lower a
  | _ => MODE
  end.

Definition main (lower : string -> string) (MODE : string)
    (NUM_PHILOSOPHERS SIMULATION_TIME : Z) (argv : list string)
  : main_outcome :=
  match Strategy_of_value (strategy_name lower MODE argv) with
  | Raise ValueError => SysExit 1
  | Raise e => Uncaught e
  | Ok s =>
      match setup (DiningTable_init NUM_PHILOSOPHERS s SIMULATION_TIME) with
      | Ok t => Simulate (initial_world t)
      | Raise e => Uncaught e
      end
  end.

(** The exit status of the process: [0] after a normal return of the main
    thread, [1] after an uncaught exception in it.  The philosopher threads
    are not daemon threads, so the interpreter exits only once none of them
    is alive. *)
Definition exit_status (w : world) : option Z :=
  if forallb (fun t => negb (is_alive t)) (threads w) then
    match main_ctl w with
    | MReturned => Some 0
    | MRaised _ => Some 1
    | _ => None
    end
  else None.

(** ** Schedules *)

(** A scheduling decision: the main thread moves, or philosopher thread [i]
    moves and, if it is at its loop test, the clock says [time_up]. *)
Inductive action : Type :=
  | AMain
  | APhil (i : nat) (time_up : bool).

Definition do_action (a : action) (w : world) : option world :=
  match a with
  | AMain => main_step w
  | APhil i time_up => phil_step i time_up w
  end.

Fixpoint run_schedule (sched : list action) (w : world) : option world :=
  match sched with
  | [] => Some w
  | a :: rest =>
      match do_action a w with
      | Some w' => run_schedule rest w'
      | None => None
      end
  end.

(** Some philosopher thread can move. *)
Definition can_step (w : world) : Prop :=
  exists i time_up w', phil_step i time_up w = Some w'.

(** ** Invariants of a run *)

(** Thread [t] holds the lock at address [a]. *)
Definition holds (t : thread) (a : nat) : Prop :=
  a ∈ fork_lock <$> held t.

(** No lock is held by two threads. *)
Definition mutual_exclusion (w : world) : Prop :=
  forall i j ti tj a,
    threads w !! i = Some ti -> threads w !! j = Some tj ->
    holds ti a -> holds tj a -> i = j.

(** A fork of a table for [n] philosophers, as [setup] builds it. *)
Definition table_fork (n : Z) (f : Fork) : Prop :=
  0 <= fork_id f < n /\ fork_lock f = Z.to_nat (fork_id f).

(** [rest] is what is left of a nest of [with] blocks of which the thread
    has entered the blocks of [h], innermost first; [R h f] is required of
    every fork [f] acquired while holding [h], and [R [] f] of every fork
    held. *)
Fixpoint wb (R : list Fork -> Fork -> Prop) (h : list Fork)
    (rest : list instr) : Prop :=
  match rest with
  | [] => h = []
  | Acquire f :: r => R h f /\ wb R (f :: h) r
  | Release f :: r =>
      match h with
      | g :: h' => g = f /\ wb R h' r
      | [] => False
      end
  | _ :: r => wb R h r
  end.

Definition thread_ok (R : list Fork -> Fork -> Prop)
    (Pp : Philosopher -> Prop) (t : thread) : Prop :=
  Pp (self t) /\
  (NoDup (fork_lock <$> held t) /\ Forall (R []) (held t)) /\
  match ctl t with
  | Body rest => wb R (held t) rest
  | Crashed _ => False
  | _ => held t = []
  end.

Definition sys_inv (R : list Fork -> Fork -> Prop)
    (Pp : Philosopher -> Prop) (ths : list thread) (l : gset nat) : Prop :=
  (forall i t, ths !! i = Some t -> thread_ok R Pp t) /\
  (forall a, a ∈ l <-> exists i t, ths !! i = Some t /\ holds t a) /\
  (forall i j ti tj a,
     ths !! i = Some ti -> ths !! j = Some tj ->
     holds ti a -> holds tj a -> i = j).

(** What the hierarchy strategy guarantees at every acquisition: the fork
    is a fork of the table and its id is above the ids of the forks held. *)
Definition ascending (n : Z) (h : list Fork) (f : Fork) : Prop :=
  table_fork n f /\ Forall (fun g => fork_id g < fork_id f) h.

Definition hierarchy_phil (n : Z) (p : Philosopher) : Prop :=
  strategy p = HIERARCHY /\
  table_fork n (left_fork p) /\ table_fork n (right_fork p) /\
  fork_id (left_fork p) ≠ fork_id (right_fork p).

Definition table_phil (n : Z) (p : Philosopher) : Prop :=
  table_fork n (left_fork p) /\ table_fork n (right_fork p).

(** What the asymmetric strategy guarantees at every acquisition.  Forks
    are ranked by their id: odd ids highest, then id 0, then the other even
    ids; every philosopher of a table takes the lower ranked of its two
    forks first. *)
Definition asym_rank (i : Z) : Z :=
  if i mod 2 =? 0 then (if i =? 0 then 1 else 0) else 2.

Definition ranked (rank : Z -> Z) (n : Z) (h : list Fork) (f : Fork) : Prop :=
  table_fork n f /\
  Forall (fun g => rank (fork_id g) < rank (fork_id f)) h.

Definition asymmetric_phil (n : Z) (p : Philosopher) : Prop :=
  strategy p = ASYMMETRIC /\
  table_fork n (left_fork p) /\ table_fork n (right_fork p) /\
  fork_id (left_fork p) = phil_id p /\
  fork_id (right_fork p) = (phil_id p + 1) mod n.

(** ** The life cycle of a run *)

(** The fields of a philosopher that [__init__] sets and nothing changes. *)
Definition same_static (p q : Philosopher) : Prop :=
  phil_id p = phil_id q /\ left_fork p = left_fork q /\
  right_fork p = right_fork q /\ strategy p = strategy q /\
  duration p = duration q.

Definition started (th : thread) : Prop := ctl th <> NotStarted.

Definition stopped (th : thread) : Prop := running (self th) = false.

(** How far [start] has got, read off the point of control of the main
    thread: which threads have been started, which have been told to stop,
    and under which condition the main thread has raised. *)
Definition start_inv (d : Z) (w : world) : Prop :=
  sim_duration w = d /\
  (report w = None \/ main_ctl w = MReturned) /\
  match main_ctl w with
  | MStart k =>
      forall j th, threads w !! j = Some th ->
        running (self th) = true /\
        ((k <= j)%nat -> ctl th = NotStarted) /\
        ((j < k)%nat -> started th)
  | MSleep =>
      Forall started (threads w) /\
      Forall (fun th => running (self th) = true) (threads w)
  | MStop k =>
      Forall started (threads w) /\
      forall j th, threads w !! j = Some th ->
        ((j < k)%nat -> stopped th) /\
        ((k <= j)%nat -> running (self th) = true)
  | MJoin _ | MReport | MReturned =>
      Forall started (threads w) /\ Forall stopped (threads w)
  | MRaised e =>
      (sleep_error d = Some e \/ sleep_may_raise d e) /\
      Forall started (threads w) /\
      Forall (fun th => running (self th) = true) (threads w)
  end.

(** The main thread has signalled every philosopher to stop. *)
Definition past_stop (m : main_control) : bool :=
  match m with
  | MJoin _ | MReport | MReturned => true
  | _ => false
  end.

(** The main thread has not yet signalled any philosopher to stop. *)
Definition before_stop (m : main_control) : bool :=
  match m with
  | MStart _ | MSleep | MRaised _ => true
  | _ => false
  end.

(** Inside an iteration of its loop, what a thread has still to execute is
    the end [rest] of its cycle, and it holds the forks that the beginning
    of the cycle has taken and not yet put down; outside it holds none. *)
Definition in_cycle (th : thread) : Prop :=
  match ctl th with
  | Body rest =>
      exists pre, cycle (self th) = pre ++ rest /\ held th = holding pre
  | Crashed _ => True
  | _ => held th = []
  end.

(** The threads of a run are the philosophers of the table, in order, with
    the fields [__init__] has set; meals are only ever added. *)
Definition frame_inv (t : DiningTable) (w : world) : Prop :=
  length (threads w) = length (philosophers t) /\
  forall i th p,
    threads w !! i = Some th -> philosophers t !! i = Some p ->
    same_static (self th) p /\ meals_eaten p <= meals_eaten (self th).

(** The number of steps a thread still makes once its [running] flag is
    cleared: the rest of its iteration, the return to the loop test and the
    exit from the loop. *)
Definition remaining (th : thread) : nat :=
  match ctl th with
  | LoopTop => 1
  | Body rest => 2 + length rest
  | _ => 0
  end.

Definition remaining_total (w : world) : nat :=
  sum_list (remaining <$> threads w).

Definition phil_action (a : action) : bool :=
  match a with
  | APhil _ _ => true
  | AMain => false
  end.

(** The thread is inside [eat]: at its sleep or at the increment of
    [meals_eaten]. *)
Definition eating (th : thread) : bool :=
  match ctl th with
  | Body (Sleep ms :: IncMeals :: _) => ms =? 200
  | Body (IncMeals :: _) => true
  | _ => false
  end.

(** The thread waits for a lock that is taken. *)
Definition blocked (w : world) (th : thread) : Prop :=
  exists f rest, ctl th = Body (Acquire f :: rest) /\ fork_lock f ∈ locked w.

(** Philosopher [j] of a table for [n] set up with the deadlock strategy. *)
Definition deadlock_phil (n d j : Z) : Philosopher :=
  Philosopher_init j (mkFork j (Z.to_nat j))
    (mkFork ((j + 1) mod n) (Z.to_nat ((j + 1) mod n))) DEADLOCK d.

(** The main thread has started the first [k] philosophers, and each of
    them has taken its left fork, has slept and is about to take its right
    fork. *)
Definition left_taken (n d : Z) (k : nat) (w : world) : Prop :=
  main_ctl w = MStart k /\
  (forall a, a ∈ locked w <-> (a < k)%nat) /\
  length (threads w) = Z.to_nat n /\
  forall j th, threads w !! j = Some th ->
    let p := deadlock_phil n d (Z.of_nat j) in
    self th = p /\
    ((j < k)%nat ->
       ctl th = Body [Acquire (right_fork p); Sleep 200; IncMeals;
                      Release (right_fork p); Release (left_fork p)]
       /\ held th = [left_fork p]) /\
    ((k <= j)%nat -> ctl th = NotStarted /\ held th = []).

(** * Properties *)

(** ** The strategy engine *)

Lemma min_by_id_lt (a b : Fork) :
  fork_id a ≠ fork_id b ->
  fork_id (min_by_id a b) < fork_id (max_by_id a b).
Proof.
  unfold min_by_id, max_by_id. intros Hne.
  destruct (Z.ltb_spec (fork_id b) (fork_id a));
    destruct (Z.ltb_spec (fork_id a) (fork_id b)); lia.
Qed.

Lemma min_max_by_id_cases (a b : Fork) :
  (min_by_id a b = a /\ max_by_id a b = b /\ fork_id a < fork_id b) \/
  (min_by_id a b = b /\ max_by_id a b = a /\ fork_id b < fork_id a) \/
  (min_by_id a b = a /\ max_by_id a b = a /\ fork_id a = fork_id b).
Proof.
  unfold min_by_id, max_by_id.
  destruct (Z.ltb_spec (fork_id b) (fork_id a));
    destruct (Z.ltb_spec (fork_id a) (fork_id b)); auto; try lia.
  right. right. repeat split. lia.
Qed.

(** C1. Under the hierarchy strategy a philosopher whose two forks have
    distinct ids acquires the fork with the smaller id first and the other
    fork second, eats, and releases the second fork before the first. *)
Theorem hierarchy_acquisition_order (p : Philosopher) :
  fork_id (left_fork p) ≠ fork_id (right_fork p) ->
  exists first second : Fork,
    hierarchy_strategy p =
      [Acquire first; Acquire second; Sleep 200; IncMeals;
       Release second; Release first]
    /\ fork_id first < fork_id second
    /\ fork_id first = Z.min (fork_id (left_fork p)) (fork_id (right_fork p))
    /\ ((first = left_fork p /\ second = right_fork p) \/
        (first = right_fork p /\ second = left_fork p))
    /\ acquisitions (hierarchy_strategy p) = [first; second]
    /\ releases (hierarchy_strategy p) = [second; first].
Proof.
  intros Hne.
  exists (min_by_id (left_fork p) (right_fork p)),
         (max_by_id (left_fork p) (right_fork p)).
  split; [reflexivity|].
  split; [by apply min_by_id_lt|].
  split.
  - destruct (min_max_by_id_cases (left_fork p) (right_fork p))
      as [(-> & _ & ?)|[(-> & _ & ?)|(-> & _ & ?)]]; lia.
  - split.
    + destruct (min_max_by_id_cases (left_fork p) (right_fork p))
        as [(-> & -> & ?)|[(-> & -> & ?)|(_ & _ & ?)]]; auto. lia.
    + repeat split.
Qed.

Lemma hierarchy_acquisition_order_witness :
  let p := Philosopher_init 4 (mkFork 4 4) (mkFork 0 0) HIERARCHY 10 in
  fork_id (left_fork p) ≠ fork_id (right_fork p) /\
  exists first second : Fork,
    hierarchy_strategy p =
      [Acquire first; Acquire second; Sleep 200; IncMeals;
       Release second; Release first]
    /\ fork_id first < fork_id second
    /\ fork_id first = Z.min (fork_id (left_fork p)) (fork_id (right_fork p))
    /\ ((first = left_fork p /\ second = right_fork p) \/
        (first = right_fork p /\ second = left_fork p))
    /\ acquisitions (hierarchy_strategy p) = [first; second]
    /\ releases (hierarchy_strategy p) = [second; first].
Proof.
  simpl. split; [lia|].
  apply (hierarchy_acquisition_order
           (Philosopher_init 4 (mkFork 4 4) (mkFork 0 0) HIERARCHY 10)).
  simpl. lia.
Defined.

(** C2. Under the asymmetric strategy a philosopher with an even id
    acquires left then right, one with an odd id right then left; both
    release in the reverse order of acquisition. *)
Theorem asymmetric_acquisition_order (p : Philosopher) :
  (Z.even (phil_id p) = true ->
     asymmetric_strategy p =
       [Acquire (left_fork p); Acquire (right_fork p); Sleep 200; IncMeals;
        Release (right_fork p); Release (left_fork p)])
  /\ (Z.odd (phil_id p) = true ->
     asymmetric_strategy p =
       [Acquire (right_fork p); Acquire (left_fork p); Sleep 200; IncMeals;
        Release (left_fork p); Release (right_fork p)])
  /\ releases (asymmetric_strategy p)
       = reverse (acquisitions (asymmetric_strategy p)).
Proof.
  unfold asymmetric_strategy. rewrite Zmod_even.
  rewrite <- Z.negb_even.
  destruct (Z.even (phil_id p)); simpl; repeat split; try discriminate.
Qed.

Lemma asymmetric_acquisition_order_witness :
  let p := Philosopher_init 3 (mkFork 3 3) (mkFork 4 4) ASYMMETRIC 10 in
  Z.odd (phil_id p) = true /\
  asymmetric_strategy p =
    [Acquire (right_fork p); Acquire (left_fork p); Sleep 200; IncMeals;
     Release (left_fork p); Release (right_fork p)].
Proof.
  simpl. split; [reflexivity|].
  apply (proj1 (proj2 (asymmetric_acquisition_order
           (Philosopher_init 3 (mkFork 3 3) (mkFork 4 4) ASYMMETRIC 10)))).
  reflexivity.
Defined.

(** C3. Under the deadlock strategy a philosopher acquires its left fork,
    then sleeps for a fixed non-zero time while it holds that fork and
    nothing else, and only then attempts its right fork. *)
Theorem deadlock_pause_between_forks :
  exists pause : Z,
    0 < pause /\ forall p : Philosopher,
    deadlock_strategy p =
         [Acquire (left_fork p); Sleep pause; Acquire (right_fork p);
          Sleep 200; IncMeals;
          Release (right_fork p); Release (left_fork p)]
    /\ holding [Acquire (left_fork p)] = [left_fork p]
    /\ holding [Acquire (left_fork p); Sleep pause] = [left_fork p].
Proof.
  exists 500. split; [lia|]. intros p. repeat split.
Qed.

(** ** Setting up the table *)

Lemma length_range (n : Z) : length (range n) = Z.to_nat n.
Proof. unfold range. by rewrite length_map, length_seq. Qed.

Lemma lookup_range (n i : Z) :
  0 <= i < n -> range n !! Z.to_nat i = Some i.
Proof.
  intros Hi. unfold range. rewrite list_lookup_fmap.
  rewrite lookup_seq_lt by lia. simpl. f_equal. lia.
Qed.

Lemma elem_of_range (n i : Z) : i ∈ range n <-> 0 <= i < n.
Proof.
  unfold range. rewrite list_elem_of_fmap. split.
  - intros (k & -> & Hk). apply elem_of_seq in Hk. lia.
  - intros Hi. exists (Z.to_nat i). split; [lia|]. apply elem_of_seq. lia.
Qed.

Lemma py_getitem_lookup {A : Type} (l : list A) (i : Z) (x : A) :
  0 <= i -> l !! Z.to_nat i = Some x -> py_getitem l i = Ok x.
Proof.
  intros Hi Hx. unfold py_getitem.
  pose proof (lookup_lt_Some _ _ _ Hx) as Hlt.
  destruct (Z.ltb_spec i 0); [lia|].
  destruct (Z.leb_spec 0 i); [|lia].
  destruct (Z.ltb_spec i (Z.of_nat (length l))); [|lia].
  simpl. by rewrite Hx.
Qed.

(** The fork and the philosopher that [setup] builds at position [i] of a
    table for [n] philosophers. *)
Lemma setup_loop_spec (n : Z) (idxs : list Z) (t : DiningTable) :
  num_philosophers t = n ->
  forks t = map (fun i => mkFork i (Z.to_nat i)) (range n) ->
  (forall i, i ∈ idxs -> 0 <= i < n) ->
  setup_loop t idxs =
    Ok (mkDiningTable n (table_strategy t) (table_duration t) (forks t)
          (philosophers t ++
           map (fun i =>
                  Philosopher_init i (mkFork i (Z.to_nat i))
                    (mkFork ((i + 1) mod n) (Z.to_nat ((i + 1) mod n)))
                    (table_strategy t) (table_duration t)) idxs)).
Proof.
  revert t. induction idxs as [|i idxs IH]; intros t Hn Hf Hidx.
  - simpl. rewrite app_nil_r. destruct t; simpl in *. by subst.
  - assert (0 <= i < n) as Hi by (apply Hidx; left).
    assert (0 <= (i + 1) mod n < n) as Hm by (apply Z.mod_pos_bound; lia).
    assert (forall j, 0 <= j < n ->
              py_getitem (forks t) j = Ok (mkFork j (Z.to_nat j))) as Hget.
    { intros j Hj. apply py_getitem_lookup; [lia|].
      rewrite Hf, list_lookup_fmap, lookup_range by done. done. }
    cbn [setup_loop]. rewrite Hget by done. cbn [mbind result_bind rbind].
    unfold py_mod. rewrite Hn.
    destruct (Z.eqb_spec n 0); [lia|]. cbn [mbind result_bind rbind].
    rewrite Hget by done. cbn [mbind result_bind rbind].
    rewrite IH; cbn [append_philosopher num_philosophers forks
                     table_strategy table_duration philosophers]; try done.
    + by rewrite <- app_assoc.
    + intros j Hj. apply Hidx. by right.
Qed.

Lemma setup_spec (n : Z) (s : Strategy) (d : Z) :
  setup (DiningTable_init n s d) =
    Ok (mkDiningTable n s d
          (map (fun i => mkFork i (Z.to_nat i)) (range n))
          (map (fun i =>
                  Philosopher_init i (mkFork i (Z.to_nat i))
                    (mkFork ((i + 1) mod n) (Z.to_nat ((i + 1) mod n))) s d)
             (range n))).
Proof.
  unfold setup. rewrite (setup_loop_spec n); try done.
  intros i. apply elem_of_range.
Qed.

Lemma topology_setup (n : Z) (s : Strategy) (d : Z) (t : DiningTable) :
  setup (DiningTable_init n s d) = Ok t ->
  topology t = map (fun i => (i, i, (i + 1) mod n)) (range n).
Proof.
  rewrite setup_spec. intros [= <-]. unfold topology. simpl.
  rewrite map_map. reflexivity.
Qed.

(** C8. For [n >= 0], [setup] creates [n] forks with ids [0 .. n-1] and [n]
    philosophers; philosopher [i] has fork [i] on its left and fork
    [(i+1) mod n] on its right, so two tables set up for the same [n] have
    the same topology. *)
Theorem setup_cyclic_assignment (n : Z) (s : Strategy) (d : Z) :
  0 <= n ->
  exists t : DiningTable,
    setup (DiningTable_init n s d) = Ok t
    /\ Z.of_nat (length (forks t)) = n
    /\ map fork_id (forks t) = range n
    /\ Z.of_nat (length (philosophers t)) = n
    /\ (forall i, 0 <= i < n ->
         exists p, philosophers t !! Z.to_nat i = Some p
           /\ phil_id p = i
           /\ forks t !! Z.to_nat i = Some (left_fork p)
           /\ forks t !! Z.to_nat ((i + 1) mod n) = Some (right_fork p)
           /\ fork_id (left_fork p) = i
           /\ fork_id (right_fork p) = (i + 1) mod n)
    /\ topology t = map (fun i => (i, i, (i + 1) mod n)) (range n)
    /\ (forall s' d' t',
         setup (DiningTable_init n s' d') = Ok t' -> topology t' = topology t).
Proof.
  intros Hn. eexists. split; [apply setup_spec|]. simpl.
  rewrite !length_map, length_range.
  split; [lia|]. split.
  { rewrite map_map. simpl. apply map_id. }
  split; [lia|]. split.
  - intros i Hi.
    assert (0 <= (i + 1) mod n < n) as Hm by (apply Z.mod_pos_bound; lia).
    eexists. rewrite !list_lookup_fmap, !lookup_range by done.
    simpl. repeat split.
  - split.
    + unfold topology. simpl. rewrite map_map. reflexivity.
    + intros s' d' t' Ht'. rewrite (topology_setup _ _ _ _ Ht').
      unfold topology. simpl. rewrite map_map. reflexivity.
Qed.

Lemma setup_cyclic_assignment_witness :
  0 <= 5 /\
  exists t : DiningTable,
    setup (DiningTable_init 5 DEADLOCK 10) = Ok t
    /\ topology t = [(0, 0, 1); (1, 1, 2); (2, 2, 3); (3, 3, 4); (4, 4, 0)].
Proof.
  split; [lia|].
  destruct (setup_cyclic_assignment 5 DEADLOCK 10) as (t & Ht & _ & _ & _ & _ & Htop & _);
    [lia|].
  exists t. split; [exact Ht|exact Htop].
Defined.

(** C10. With one philosopher [setup] succeeds, and philosopher 0 gets the
    one fork, with id 0, both as its left and as its right fork. *)
Theorem setup_single_philosopher (s : Strategy) (d : Z) :
  exists (t : DiningTable) (f : Fork) (p : Philosopher),
    setup (DiningTable_init 1 s d) = Ok t
    /\ forks t = [f]
    /\ philosophers t = [p]
    /\ fork_id f = 0
    /\ phil_id p = 0
    /\ left_fork p = f
    /\ right_fork p = f
    /\ fork_lock (left_fork p) = fork_lock (right_fork p).
Proof.
  eexists _, _, _. rewrite setup_spec. repeat split.
Qed.

(** C6, as stated, fails: [setup] for one philosopher raises nothing, and
    the first step of [start] then starts that philosopher. *)
Lemma setup_one_philosopher_not_rejected :
  (forall e, setup (DiningTable_init 1 DEADLOCK 10) <> Raise e)
  /\ exists t w t0,
       setup (DiningTable_init 1 DEADLOCK 10) = Ok t
       /\ main_step (initial_world t) = Some w
       /\ threads w !! 0%nat = Some t0
       /\ is_alive t0 = true.
Proof.
  split; [intros e; rewrite setup_spec; discriminate|].
  eexists _, _, _. rewrite setup_spec. repeat split.
Qed.

(** C6, amended. [setup] does not validate the number of philosophers: for
    fewer than two it succeeds, with one fork and one philosopher for
    [n = 1] and with none for [n <= 0], and [main] goes on to [start]. *)
Theorem setup_accepts_fewer_than_two (n : Z) (s : Strategy) (d : Z) :
  n < 2 ->
  exists t : DiningTable,
    setup (DiningTable_init n s d) = Ok t
    /\ length (forks t) = Z.to_nat n
    /\ length (philosophers t) = Z.to_nat n
    /\ (forall lower MODE argv,
          Strategy_of_value (strategy_name lower MODE argv) = Ok s ->
          main lower MODE n d argv = Simulate (initial_world t)).
Proof.
  intros Hn. eexists. split; [apply setup_spec|]. simpl.
  rewrite !length_map, length_range. repeat split.
  intros lower MODE argv Hs. unfold main. rewrite Hs, setup_spec.
  reflexivity.
Qed.

Lemma setup_accepts_fewer_than_two_witness :
  1 < 2 /\
  exists t : DiningTable,
    setup (DiningTable_init 1 HIERARCHY 10) = Ok t
    /\ length (forks t) = 1%nat
    /\ length (philosophers t) = 1%nat.
Proof.
  split; [lia|].
  destruct (setup_accepts_fewer_than_two 1 HIERARCHY 10) as (t & Ht & Hf & Hp & _);
    [lia|].
  exists t. repeat split; assumption.
Defined.

(** ** Exit signalling *)

Lemma Strategy_of_value_Ok (name : string) (s : Strategy) :
  Strategy_of_value name = Ok s <-> name = Strategy_value s.
Proof.
  unfold Strategy_of_value. split.
  - destruct (String.eqb_spec name "deadlock"); [by intros [= <-]|].
    destruct (String.eqb_spec name "hierarchy"); [by intros [= <-]|].
    destruct (String.eqb_spec name "asymmetric"); [by intros [= <-]|].
    discriminate.
  - intros ->. by destruct s.
Qed.

Lemma Strategy_of_value_Raise (name : string) (e : exn) :
  Strategy_of_value name = Raise e <->
  e = ValueError /\ forall s, name <> Strategy_value s.
Proof.
  split.
  - intros He. split.
    + unfold Strategy_of_value in He.
      repeat (destruct (String.eqb _ _); [discriminate|]). congruence.
    + intros s Hs. apply Strategy_of_value_Ok in Hs. congruence.
  - intros [-> Hs]. unfold Strategy_of_value.
    destruct (String.eqb_spec name "deadlock"); [by destruct (Hs DEADLOCK)|].
    destruct (String.eqb_spec name "hierarchy"); [by destruct (Hs HIERARCHY)|].
    destruct (String.eqb_spec name "asymmetric");
      [by destruct (Hs ASYMMETRIC)|].
    reflexivity.
Qed.




(** ** Runs *)

Lemma run_schedule_reachable (t : DiningTable) (sched : list action)
    (w w' : world) :
  reachable t w -> run_schedule sched w = Some w' -> reachable t w'.
Proof.
  revert w. induction sched as [|a sched IH]; intros w Hw; simpl.
  - by intros [= <-].
  - destruct (do_action a w) as [w1|] eqn:Ha; [|discriminate].
    apply IH. eapply rtc_r; [exact Hw|].
    destruct a; simpl in Ha; [by apply step_main|by eapply step_phil].
Qed.

Lemma lookup_insert_inv {A : Type} (l : list A) (i j : nat) (x y : A) :
  <[i := x]> l !! j = Some y ->
  (j = i /\ y = x) \/ (j ≠ i /\ l !! j = Some y).
Proof.
  intros H. destruct (decide (i = j)) as [->|Hne].
  - left. split; [done|].
    rewrite list_lookup_insert_eq in H; [congruence|].
    apply lookup_lt_Some in H. by rewrite length_insert in H.
  - right. rewrite list_lookup_insert_ne in H by done. auto.
Qed.

Section invariant.
Variable R : list Fork -> Fork -> Prop.
Variable Pp : Philosopher -> Prop.
Hypothesis Pp_stop : forall p, Pp p -> Pp (stop p).
Hypothesis Pp_add_meal : forall p, Pp p -> Pp (add_meal p).
Hypothesis Pp_cycle : forall p, Pp p -> wb R [] (cycle p).
Hypothesis R_nil : forall h f, R h f -> R [] f.

(** Replacing a thread by one that holds the same forks. *)
Lemma sys_inv_same_held (ths : list thread) (l : gset nat) (i : nat)
    (t t' : thread) :
  sys_inv R Pp ths l -> ths !! i = Some t ->
  held t' = held t -> thread_ok R Pp t' ->
  sys_inv R Pp (<[i := t']> ths) l.
Proof.
  intros (Hok & Hl & Hmx) Hi Hheld Hok'.
  assert (forall j tj, <[i := t']> ths !! j = Some tj ->
            exists tj0, ths !! j = Some tj0 /\ held tj = held tj0) as Hback.
  { intros j tj Hj. apply lookup_insert_inv in Hj as [[-> ->]|[_ Hj]]; eauto. }
  split; [|split].
  - intros j tj Hj. apply lookup_insert_inv in Hj as [[-> ->]|[_ Hj]]; eauto.
  - intros a. rewrite Hl. split.
    + intros (j & tj & Hj & Ha). destruct (decide (j = i)) as [->|Hne].
      * exists i, t'. split.
        -- apply list_lookup_insert_eq. by eapply lookup_lt_Some.
        -- unfold holds in *. rewrite Hheld. congruence.
      * exists j, tj. by rewrite list_lookup_insert_ne.
    + intros (j & tj & Hj & Ha). apply Hback in Hj as (tj0 & Hj0 & He).
      exists j, tj0. unfold holds in *. by rewrite <- He.
  - intros j k tj tk a Hj Hk Haj Hak.
    apply Hback in Hj as (tj0 & Hj0 & Hej).
    apply Hback in Hk as (tk0 & Hk0 & Hek).
    eapply (Hmx j k tj0 tk0 a); unfold holds in *; congruence.
Qed.

(** A thread takes a free lock. *)
Lemma sys_inv_acquire (ths : list thread) (l : gset nat) (i : nat)
    (t : thread) (f : Fork) (rest : list instr) :
  sys_inv R Pp ths l -> ths !! i = Some t ->
  ctl t = Body (Acquire f :: rest) -> fork_lock f ∉ l ->
  sys_inv R Pp (<[i := mkThread (self t) (Body rest) (f :: held t)]> ths)
    ({[fork_lock f]} ∪ l).
Proof.
  intros (Hok & Hl & Hmx) Hi Hctl Hfree.
  assert (forall j tj, ths !! j = Some tj -> ~ holds tj (fork_lock f)) as Hnone.
  { intros j tj Hj Hh. apply Hfree, Hl. eauto. }
  destruct (Hok i t Hi) as (HP & Hnd & Hwb). rewrite Hctl in Hwb.
  simpl in Hwb. destruct Hwb as [HR Hwb].
  assert (i < length ths)%nat as Hlt by (by eapply lookup_lt_Some).
  split; [|split].
  - intros j tj Hj. apply lookup_insert_inv in Hj as [[-> ->]|[_ Hj]]; eauto.
    destruct Hnd as [Hnd HQ].
    split; [done|]. split; [|done]. simpl. split.
    + constructor; [|done]. apply (Hnone i t Hi).
    + constructor; [by eapply R_nil|done].
  - intros a. rewrite elem_of_union, elem_of_singleton, Hl. split.
    + intros [->|(j & tj & Hj & Ha)].
      * exists i, (mkThread (self t) (Body rest) (f :: held t)).
        split; [by apply list_lookup_insert_eq|]. unfold holds. simpl. left.
      * destruct (decide (j = i)) as [->|Hne].
        -- eexists i, _. split; [by apply list_lookup_insert_eq|].
           rewrite Hi in Hj. injection Hj as <-.
           unfold holds in *. simpl. by right.
        -- exists j, tj. by rewrite list_lookup_insert_ne.
    + intros (j & tj & Hj & Ha).
      apply lookup_insert_inv in Hj as [[-> ->]|[_ Hj]].
      * unfold holds in Ha. simpl in Ha. apply elem_of_cons in Ha as [->|Ha];
          [by left|]. right. by exists i, t.
      * right. eauto.
  - intros j k tj tk a Hj Hk Haj Hak.
    apply lookup_insert_inv in Hj as [[-> ->]|[Hji Hj]];
      apply lookup_insert_inv in Hk as [[-> ->]|[Hki Hk]]; try done.
    + unfold holds in Haj. simpl in Haj.
      apply elem_of_cons in Haj as [->|Haj]; [by destruct (Hnone k tk Hk)|].
      by apply (Hmx i k t tk a).
    + unfold holds in Hak. simpl in Hak.
      apply elem_of_cons in Hak as [->|Hak]; [by destruct (Hnone j tj Hj)|].
      by apply (Hmx j i tj t a).
    + by apply (Hmx j k tj tk a).
Qed.

(** At a [Release f] the thread holds [f] innermost, so its lock is taken. *)
Lemma release_holds (ths : list thread) (l : gset nat) (i : nat)
    (t : thread) (f : Fork) (rest : list instr) :
  sys_inv R Pp ths l -> ths !! i = Some t ->
  ctl t = Body (Release f :: rest) ->
  (exists h', held t = f :: h' /\ wb R h' rest) /\ fork_lock f ∈ l.
Proof.
  intros (Hok & Hl & Hmx) Hi Hctl.
  destruct (Hok i t Hi) as (HP & Hnd & Hwb). rewrite Hctl in Hwb.
  simpl in Hwb. destruct (held t) as [|g h'] eqn:Hh; [done|].
  destruct Hwb as [-> Hwb]. split; [eauto|].
  apply Hl. exists i, t. split; [done|]. unfold holds. rewrite Hh. simpl. left.
Qed.

(** A thread leaves its innermost [with] block. *)
Lemma sys_inv_release (ths : list thread) (l : gset nat) (i : nat)
    (t : thread) (f : Fork) (rest : list instr) :
  sys_inv R Pp ths l -> ths !! i = Some t ->
  ctl t = Body (Release f :: rest) ->
  sys_inv R Pp (<[i := mkThread (self t) (Body rest) (tail (held t))]> ths)
    (l ∖ {[fork_lock f]}).
Proof.
  intros Hinv Hi Hctl.
  destruct (release_holds _ _ _ _ _ _ Hinv Hi Hctl) as [(h' & Hh & Hwb) Hin].
  destruct Hinv as (Hok & Hl & Hmx).
  destruct (Hok i t Hi) as (HP & Hnd & _).
  destruct Hnd as [Hnd HQ].
  rewrite Hh in Hnd, HQ |- *. simpl in Hnd |- *.
  apply NoDup_cons in Hnd as [Hnotin Hnd].
  apply Forall_cons in HQ as [_ HQ].
  assert (i < length ths)%nat as Hlt by (by eapply lookup_lt_Some).
  assert (holds t (fork_lock f)) as Hif
    by (unfold holds; rewrite Hh; simpl; left).
  split; [|split].
  - intros j tj Hj. apply lookup_insert_inv in Hj as [[-> ->]|[_ Hj]]; eauto.
    by repeat split.
  - intros a. rewrite elem_of_difference, elem_of_singleton, Hl. split.
    + intros [(j & tj & Hj & Ha) Hne]. destruct (decide (j = i)) as [->|Hji].
      * eexists i, _. split; [by apply list_lookup_insert_eq|].
        unfold holds in *. simpl. rewrite Hi in Hj. injection Hj as <-.
        rewrite Hh in Ha. simpl in Ha.
        apply elem_of_cons in Ha as [->|Ha]; done.
      * exists j, tj. by rewrite list_lookup_insert_ne.
    + intros (j & tj & Hj & Ha).
      apply lookup_insert_inv in Hj as [[-> ->]|[Hji Hj]].
      * unfold holds in Ha. simpl in Ha. split.
        -- exists i, t. split; [done|]. unfold holds. rewrite Hh. simpl.
           by right.
        -- by intros ->.
      * split; [eauto|]. intros ->. by apply Hji, (Hmx j i tj t (fork_lock f)).
  - intros j k tj tk a Hj Hk Haj Hak.
    assert (forall m tm, <[i := mkThread (self t) (Body rest) h']> ths !! m
                           = Some tm ->
              exists tm0, ths !! m = Some tm0 /\
                forall b, holds tm b -> holds tm0 b) as Hback.
    { intros m tm Hm. apply lookup_insert_inv in Hm as [[-> ->]|[_ Hm]]; eauto.
      exists t. split; [done|]. unfold holds. rewrite Hh. simpl.
      intros b Hb. by right. }
    apply Hback in Hj as (tj0 & Hj0 & Hsj).
    apply Hback in Hk as (tk0 & Hk0 & Hsk).
    eapply (Hmx j k tj0 tk0 a); eauto.
Qed.

Lemma thread_ok_held_nil (t : thread) :
  thread_ok R Pp t ->
  ctl t = NotStarted \/ ctl t = LoopTop \/ ctl t = Finished \/ ctl t = Body [] ->
  held t = [].
Proof.
  intros (_ & _ & H) [E|[E|[E|E]]]; by rewrite E in H.
Qed.

Lemma sys_inv_phil_step (i : nat) (time_up : bool) (w w' : world) :
  sys_inv R Pp (threads w) (locked w) ->
  phil_step i time_up w = Some w' ->
  sys_inv R Pp (threads w') (locked w').
Proof.
  intros Hinv. unfold phil_step.
  destruct (threads w !! i) as [t|] eqn:Hi; [|discriminate].
  pose proof (proj1 Hinv i t Hi) as Hok.
  pose proof Hok as (HP & [Hnd HQ] & Hwb).
  destruct (ctl t) as [| |[|ins rest]| |] eqn:Hctl; try discriminate.
  - assert (held t = []) as Hnil by (apply thread_ok_held_nil; auto).
    destruct (loop_test (self t) time_up); intros [= <-]; simpl;
      eapply sys_inv_same_held; eauto; repeat split; simpl; try done.
    rewrite Hnil. by apply Pp_cycle.
  - intros [= <-]. simpl. eapply sys_inv_same_held; eauto.
    repeat split; simpl; done.
  - destruct ins as [ms| |f|f]; simpl.
    + intros [= <-]. simpl. eapply sys_inv_same_held; eauto.
      repeat split; simpl; done.
    + intros [= <-]. simpl. eapply sys_inv_same_held; eauto.
      repeat split; simpl; auto.
    + destruct (decide (fork_lock f ∈ locked w)); [discriminate|].
      intros [= <-]. simpl. by eapply sys_inv_acquire.
    + destruct (release_holds _ _ _ _ _ _ Hinv Hi Hctl) as [_ Hin].
      destruct (decide (fork_lock f ∈ locked w)); [|done].
      intros [= <-]. simpl. by eapply sys_inv_release.
Qed.

Lemma sys_inv_main_step (w w' : world) :
  sys_inv R Pp (threads w) (locked w) ->
  main_step w = Some w' ->
  sys_inv R Pp (threads w') (locked w').
Proof.
  intros Hinv. unfold main_step.
  destruct (main_ctl w) as [k| |k|k| | |]; try discriminate.
  - destruct (threads w !! k) as [t|] eqn:Hk; [|by intros [= <-]].
    pose proof (proj1 Hinv k t Hk) as (HP & [Hnd HQ] & Hwb).
    destruct (ctl t) eqn:Hctl; intros [= <-]; simpl; try done.
    eapply sys_inv_same_held; eauto.
    repeat split; simpl; done.
  - destruct (sleep_error (sim_duration w)); by intros [= <-].
  - destruct (threads w !! k) as [t|] eqn:Hk; [|by intros [= <-]].
    pose proof (proj1 Hinv k t Hk) as (HP & [Hnd HQ] & Hwb).
    intros [= <-]. simpl. eapply sys_inv_same_held; eauto.
    repeat split; simpl; auto.
  - destruct (threads w !! k); by intros [= <-].
  - by intros [= <-].
Qed.

Lemma sys_inv_initial (t : DiningTable) :
  Forall Pp (philosophers t) ->
  sys_inv R Pp (threads (initial_world t)) (locked (initial_world t)).
Proof.
  intros HP. simpl. rewrite Forall_forall in HP.
  assert (forall i ti,
            ((fun p => mkThread p NotStarted []) <$> philosophers t) !! i
              = Some ti ->
            Pp (self ti) /\ ctl ti = NotStarted /\ held ti = []) as Hth.
  { intros i ti Hi. rewrite list_lookup_fmap in Hi.
    destruct (philosophers t !! i) as [p|] eqn:Hp; [|discriminate].
    injection Hi as <-. simpl. repeat split.
    apply HP. by eapply list_elem_of_lookup_2. }
  split; [|split].
  - intros i ti Hi. destruct (Hth i ti Hi) as (? & Hc & Hh).
    unfold thread_ok. rewrite Hc, Hh. repeat split; [done|constructor..].
  - intros a. split; [set_solver|].
    intros (i & ti & Hi & Ha). destruct (Hth i ti Hi) as (? & Hc & Hh).
    unfold holds in Ha. rewrite Hh in Ha. by apply elem_of_nil in Ha.
  - intros i j ti tj a Hi Hj Ha. destruct (Hth i ti Hi) as (? & Hc & Hh).
    unfold holds in Ha. rewrite Hh in Ha. by apply elem_of_nil in Ha.
Qed.

Lemma sys_inv_reachable (t : DiningTable) (w : world) :
  Forall Pp (philosophers t) ->
  reachable t w ->
  sys_inv R Pp (threads w) (locked w).
Proof.
  intros HP Hr. unfold reachable in Hr.
  eapply (rtc_ind_r (fun w0 => sys_inv R Pp (threads w0) (locked w0)));
    [| |exact Hr].
  - by apply sys_inv_initial.
  - intros w1 w2 _ Hstep Hinv. destruct Hstep as [? ? Hm|? ? ? ? Hp|? ? _ _].
    + by eapply sys_inv_main_step.
    + by eapply sys_inv_phil_step.
    + exact Hinv.
Qed.

End invariant.

(** ** Mutual exclusion *)

Lemma table_fork_mod (n i : Z) :
  0 <= i < n ->
  table_fork n (mkFork i (Z.to_nat i)) /\
  table_fork n (mkFork ((i + 1) mod n) (Z.to_nat ((i + 1) mod n))).
Proof.
  intros Hi. unfold table_fork. simpl.
  assert (0 <= (i + 1) mod n < n) by (apply Z.mod_pos_bound; lia).
  repeat split; lia.
Qed.

Lemma min_max_by_id_pred (P : Fork -> Prop) (a b : Fork) :
  P a -> P b -> P (min_by_id a b) /\ P (max_by_id a b).
Proof.
  intros Ha Hb. unfold min_by_id, max_by_id.
  destruct (fork_id b <? fork_id a), (fork_id a <? fork_id b); auto.
Qed.

Lemma table_phil_cycle (n : Z) (p : Philosopher) :
  table_phil n p -> wb (fun _ f => table_fork n f) [] (cycle p).
Proof.
  intros [Hl Hr]. unfold cycle.
  destruct (strategy p); simpl.
  - auto.
  - destruct (min_max_by_id_pred (table_fork n) _ _ Hl Hr). auto.
  - unfold asymmetric_strategy.
    destruct (phil_id p mod 2 =? 0); simpl; auto.
Qed.

Lemma setup_table_phil (n : Z) (s : Strategy) (d : Z) (t : DiningTable) :
  setup (DiningTable_init n s d) = Ok t ->
  Forall (table_phil n) (philosophers t).
Proof.
  rewrite setup_spec. intros [= <-]. simpl.
  apply Forall_fmap, Forall_forall. intros i Hi.
  apply elem_of_range in Hi. unfold table_phil. simpl.
  by apply table_fork_mod.
Qed.

Lemma table_fork_lock_inj (n : Z) (f g : Fork) :
  table_fork n f -> table_fork n g ->
  fork_lock f = fork_lock g <-> fork_id f = fork_id g.
Proof.
  intros [Hf Hfl] [Hg Hgl]. rewrite Hfl, Hgl. lia.
Qed.

Lemma table_inv_reachable (n : Z) (s : Strategy) (d : Z) (t : DiningTable)
    (w : world) :
  setup (DiningTable_init n s d) = Ok t -> reachable t w ->
  sys_inv (fun _ f => table_fork n f) (table_phil n) (threads w) (locked w).
Proof.
  intros Ht Hw. eapply sys_inv_reachable; eauto.
  - apply table_phil_cycle.
  - by eapply setup_table_phil.
Qed.

(** C4. In every state a run of a set-up table can reach, under every
    strategy, no lock and no fork is held by two philosophers, and a lock is
    taken exactly when some philosopher holds it. *)
Theorem fork_mutual_exclusion (n : Z) (s : Strategy) (d : Z)
    (t : DiningTable) (w : world) :
  setup (DiningTable_init n s d) = Ok t ->
  reachable t w ->
  mutual_exclusion w
  /\ (forall i j ti tj f g,
        threads w !! i = Some ti -> threads w !! j = Some tj ->
        f ∈ held ti -> g ∈ held tj -> fork_id f = fork_id g -> i = j)
  /\ (forall i ti, threads w !! i = Some ti ->
        NoDup (fork_lock <$> held ti))
  /\ (forall a, a ∈ locked w <->
        exists i ti, threads w !! i = Some ti /\ holds ti a).
Proof.
  intros Ht Hw.
  destruct (table_inv_reachable _ _ _ _ _ Ht Hw) as (Hok & Hl & Hmx).
  split; [exact Hmx|]. split; [|split; [|exact Hl]].
  - intros i j ti tj f g Hi Hj Hf Hg Hid.
    destruct (Hok i ti Hi) as (_ & [_ HQi] & _).
    destruct (Hok j tj Hj) as (_ & [_ HQj] & _).
    rewrite Forall_forall in HQi, HQj.
    apply (Hmx i j ti tj (fork_lock f) Hi Hj).
    + unfold holds. apply list_elem_of_fmap. eauto.
    + unfold holds. apply list_elem_of_fmap. exists g. split; [|done].
      eapply table_fork_lock_inj; eauto.
  - intros i ti Hi. by destruct (Hok i ti Hi) as (_ & [Hnd _] & _).
Qed.

Lemma fork_mutual_exclusion_witness :
  exists (t : DiningTable) (w : world),
    setup (DiningTable_init 2 DEADLOCK 10) = Ok t
    /\ run_schedule
         [AMain; AMain;
          APhil 0 false; APhil 0 false; APhil 0 false;
          APhil 1 false; APhil 1 false; APhil 1 false]
         (initial_world t) = Some w
    /\ reachable t w
    /\ (held <$> threads w) = [[mkFork 0 0]; [mkFork 1 1]]
    /\ mutual_exclusion w.
Proof.
  eexists _, _.
  split; [apply setup_spec|].
  match goal with
  | |- run_schedule ?sched ?w0 = Some ?w /\ _ =>
      assert (run_schedule sched w0 = Some w) as Hrun
        by (vm_compute; reflexivity)
  end.
  split; [exact Hrun|].
  pose proof (run_schedule_reachable _ _ _ _ (rtc_refl _ _) Hrun) as Hreach.
  split; [exact Hreach|].
  split; [reflexivity|].
  exact (proj1 (fork_mutual_exclusion 2 DEADLOCK 10 _ _
                  (setup_spec 2 DEADLOCK 10) Hreach)).
Defined.

(** ** The eat and release tail *)

(** Every iteration has the same shape: think, take a first fork, pause
    (deadlock strategy only), take a second fork, eat, put the second fork
    down, put the first fork down. *)
Lemma cycle_shape (p : Philosopher) :
  exists (first second : Fork) (pause : list instr),
    cycle p =
      think ++ [Acquire first] ++ pause ++
      [Acquire second; Sleep 200; IncMeals; Release second; Release first]
    /\ (pause = [] \/ pause = [Sleep 500])
    /\ ((first = left_fork p /\ second = right_fork p) \/
        (first = right_fork p /\ second = left_fork p) \/
        (first = left_fork p /\ second = left_fork p /\
         fork_id (left_fork p) = fork_id (right_fork p))).
Proof.
  unfold cycle. destruct (strategy p).
  - exists (left_fork p), (right_fork p), [Sleep 500].
    split; [reflexivity|]. auto.
  - exists (min_by_id (left_fork p) (right_fork p)),
           (max_by_id (left_fork p) (right_fork p)), [].
    split; [reflexivity|]. split; [auto|].
    destruct (min_max_by_id_cases (left_fork p) (right_fork p))
      as [(-> & -> & ?)|[(-> & -> & ?)|(-> & -> & ?)]]; auto.
  - unfold asymmetric_strategy. destruct (phil_id p mod 2 =? 0).
    + exists (left_fork p), (right_fork p), [].
      split; [reflexivity|]. auto.
    + exists (right_fork p), (left_fork p), [].
      split; [reflexivity|]. auto.
Qed.

(** C7. Under every strategy what follows the second acquisition is: eat
    (sleep, one increment of [meals_eaten]), release the second fork,
    release the first; and in every reachable state a thread that is at an
    instruction other than an acquisition executes it and moves to the next
    one: a sleep changes nothing, the increment adds one meal, a release
    frees the lock of the innermost fork held.  So the tail cannot block,
    exit early or fail. *)
Theorem eat_release_tail_completes (n : Z) (s : Strategy) (d : Z)
    (t : DiningTable) :
  setup (DiningTable_init n s d) = Ok t ->
  (forall p, p ∈ philosophers t ->
     exists (first second : Fork) (pre : list instr),
       cycle p =
         pre ++ [Acquire second; Sleep 200; IncMeals;
                 Release second; Release first]
       /\ acquisitions pre = [first] /\ releases pre = []
       /\ holding (pre ++ [Acquire second]) = [second; first]
       /\ holding (cycle p) = [])
  /\ (forall w i th ins rest time_up,
        reachable t w ->
        threads w !! i = Some th ->
        ctl th = Body (ins :: rest) ->
        (forall f, ins <> Acquire f) ->
        exists w' th',
          phil_step i time_up w = Some w'
          /\ threads w' !! i = Some th'
          /\ ctl th' = Body rest
          /\ match ins with
             | Release f =>
                 held th = f :: held th'
                 /\ fork_lock f ∈ locked w
                 /\ locked w' = locked w ∖ {[fork_lock f]}
                 /\ self th' = self th
             | IncMeals =>
                 held th' = held th /\ locked w' = locked w
                 /\ meals_eaten (self th') = meals_eaten (self th) + 1
             | _ =>
                 held th' = held th /\ locked w' = locked w
                 /\ self th' = self th
             end).
Proof.
  intros Ht. split.
  - intros p _. destruct (cycle_shape p) as (a & b & pause & Hc & Hp & _).
    exists a, b, (think ++ [Acquire a] ++ pause).
    rewrite Hc. destruct Hp as [-> | ->]; repeat split.
  - intros w i th ins rest time_up Hw Hi Hctl Hna.
    pose proof (table_inv_reachable _ _ _ _ _ Ht Hw) as Hinv.
    assert (i < length (threads w))%nat as Hlt by (by eapply lookup_lt_Some).
    unfold phil_step. rewrite Hi, Hctl.
    destruct ins as [ms| |f|f]; simpl.
    + eexists _, _. split; [reflexivity|]. simpl.
      split; [by apply list_lookup_insert_eq|]. repeat split.
    + eexists _, _. split; [reflexivity|]. simpl.
      split; [by apply list_lookup_insert_eq|]. repeat split.
    + by destruct (Hna f).
    + destruct (release_holds _ _ _ _ _ _ _ _ Hinv Hi Hctl)
        as [(h' & Hh & _) Hin].
      destruct (decide (fork_lock f ∈ locked w)); [|done].
      eexists _, _. split; [reflexivity|]. simpl.
      split; [by apply list_lookup_insert_eq|]. rewrite Hh. repeat split.
      done.
Qed.

Lemma eat_release_tail_completes_witness :
  exists (t : DiningTable) (w : world),
    setup (DiningTable_init 3 HIERARCHY 10) = Ok t
    /\ run_schedule
         [AMain; AMain; AMain;
          APhil 0 false; APhil 0 false; APhil 0 false; APhil 0 false;
          APhil 0 false; APhil 0 false]
         (initial_world t) = Some w
    /\ exists (th : thread) (w' : world) (th' : thread),
         threads w !! 0%nat = Some th
         /\ ctl th = Body [Release (mkFork 1 1); Release (mkFork 0 0)]
         /\ phil_step 0 false w = Some w'
         /\ threads w' !! 0%nat = Some th'
         /\ ctl th' = Body [Release (mkFork 0 0)]
         /\ held th = mkFork 1 1 :: held th'.
Proof.
  eexists _, _.
  split; [apply setup_spec|].
  match goal with
  | |- run_schedule ?sched ?w0 = Some ?w /\ _ =>
      assert (run_schedule sched w0 = Some w) as Hrun
        by (vm_compute; reflexivity)
  end.
  split; [exact Hrun|].
  pose proof (run_schedule_reachable _ _ _ _ (rtc_refl _ _) Hrun) as Hreach.
  destruct (proj2 (eat_release_tail_completes 3 HIERARCHY 10 _
                     (setup_spec 3 HIERARCHY 10))
              _ 0%nat _ (Release (mkFork 1 1)) [Release (mkFork 0 0)] false
              Hreach eq_refl eq_refl)
    as (w' & th' & Hstep & Hth' & Hctl' & Hheld & _);
    [discriminate|].
  eexists _, w', th'.
  split; [reflexivity|]. split; [reflexivity|].
  split; [exact Hstep|]. split; [exact Hth'|]. split; [exact Hctl'|].
  exact Hheld.
Defined.

(** ** No circular wait under the hierarchy strategy *)

Lemma hierarchy_phil_cycle (n : Z) (p : Philosopher) :
  hierarchy_phil n p -> wb (ascending n) [] (cycle p).
Proof.
  intros (Hs & Hl & Hr & Hne). unfold cycle. rewrite Hs. simpl.
  destruct (min_max_by_id_pred (table_fork n) _ _ Hl Hr) as [Hmin Hmax].
  pose proof (min_by_id_lt _ _ Hne).
  split; [split; [done|constructor]|].
  split; [split; [done|by repeat constructor]|].
  repeat split.
Qed.

Lemma setup_hierarchy_phil (n d : Z) (t : DiningTable) :
  2 <= n ->
  setup (DiningTable_init n HIERARCHY d) = Ok t ->
  Forall (hierarchy_phil n) (philosophers t).
Proof.
  intros Hn. rewrite setup_spec. intros [= <-]. simpl.
  apply Forall_fmap, Forall_forall. intros i Hi.
  apply elem_of_range in Hi. unfold hierarchy_phil. simpl.
  destruct (table_fork_mod n i Hi) as [Hl Hr].
  split; [done|]. split; [done|]. split; [done|].
  destruct (decide (i + 1 = n)) as [He|Hne].
  - rewrite <- He, Z_mod_same_full. lia.
  - rewrite Z.mod_small by lia. lia.
Qed.

Lemma hierarchy_inv_reachable (n d : Z) (t : DiningTable) (w : world) :
  2 <= n ->
  setup (DiningTable_init n HIERARCHY d) = Ok t -> reachable t w ->
  sys_inv (ascending n) (hierarchy_phil n) (threads w) (locked w).
Proof.
  intros Hn Ht Hw. eapply sys_inv_reachable; eauto.
  - apply hierarchy_phil_cycle.
  - intros h f [Hf _]. split; [done|constructor].
  - by eapply setup_hierarchy_phil.
Qed.

(** A live thread moves unless it is waiting for a lock that is taken. *)
Lemma alive_steps_or_waits (w : world) (i : nat) (th : thread) :
  threads w !! i = Some th -> is_alive th = true ->
  (exists w', phil_step i false w = Some w') \/
  (exists f rest, ctl th = Body (Acquire f :: rest) /\ fork_lock f ∈ locked w).
Proof.
  intros Hi Halive. unfold phil_step. rewrite Hi.
  unfold is_alive in Halive.
  destruct (ctl th) as [| |[|ins rest]| |]; try discriminate.
  - left. destruct (loop_test (self th) false); eauto.
  - left. eauto.
  - destruct ins as [ms| |f|f]; simpl; eauto.
    + destruct (decide (fork_lock f ∈ locked w)); eauto.
    + left. destruct (decide (fork_lock f ∈ locked w)); eauto.
Qed.

Lemma hierarchy_progress (n : Z) (w : world) :
  sys_inv (ascending n) (hierarchy_phil n) (threads w) (locked w) ->
  forall (m : nat) (i : nat) (th : thread),
    threads w !! i = Some th -> is_alive th = true ->
    (forall f rest, ctl th = Body (Acquire f :: rest) ->
       n - fork_id f <= Z.of_nat m) ->
    can_step w.
Proof.
  intros (Hok & Hl & Hmx). induction m as [|m IH]; intros i th Hi Halive Hm.
  - destruct (alive_steps_or_waits w i th Hi Halive)
      as [[w' Hw']|(f & rest & Hctl & Hin)]; [by exists i, false, w'|].
    destruct (Hok i th Hi) as (_ & _ & Hwb). rewrite Hctl in Hwb.
    destruct Hwb as [[[Hf _] _] _]. specialize (Hm f rest Hctl). lia.
  - destruct (alive_steps_or_waits w i th Hi Halive)
      as [[w' Hw']|(f & rest & Hctl & Hin)]; [by exists i, false, w'|].
    destruct (Hok i th Hi) as (_ & _ & Hwb). rewrite Hctl in Hwb.
    destruct Hwb as [[Hf _] _].
    apply Hl in Hin as (j & tj & Hj & Hheld).
    unfold holds in Hheld. apply list_elem_of_fmap in Hheld as (g & Hlock & Hg).
    destruct (Hok j tj Hj) as (_ & [_ HQ] & Hwbj).
    rewrite Forall_forall in HQ. destruct (HQ g Hg) as [Hgt _].
    assert (fork_id g = fork_id f) as Hid
      by (eapply table_fork_lock_inj; eauto).
    assert (is_alive tj = true) as Haj.
    { unfold is_alive. destruct (ctl tj); try done;
        rewrite Hwbj in Hg; by apply elem_of_nil in Hg. }
    apply (IH j tj Hj Haj). intros f' rest' Hctlj.
    rewrite Hctlj in Hwbj. destruct Hwbj as [[_ Hasc] _].
    rewrite Forall_forall in Hasc. specialize (Hasc g Hg).
    specialize (Hm f rest Hctl). lia.
Qed.

(** Under the hierarchy strategy with at least two philosophers no
    reachable state is a deadlock: as long as a philosopher thread is alive,
    some philosopher thread can move. *)
Theorem hierarchy_no_circular_wait (n d : Z) (t : DiningTable) (w : world) :
  2 <= n ->
  setup (DiningTable_init n HIERARCHY d) = Ok t ->
  reachable t w ->
  (exists i th, threads w !! i = Some th /\ is_alive th = true) ->
  can_step w.
Proof.
  intros Hn Ht Hw (i & th & Hi & Halive).
  pose proof (hierarchy_inv_reachable n d t w Hn Ht Hw) as Hinv.
  apply (hierarchy_progress n w Hinv (Z.to_nat n) i th Hi Halive).
  intros f rest Hctl.
  destruct Hinv as (Hok & _ & _).
  destruct (Hok i th Hi) as (_ & _ & Hwb). rewrite Hctl in Hwb.
  destruct Hwb as [[[Hf _] _] _]. lia.
Qed.

(** ** The deadlock strategy can deadlock *)

(** With two philosophers under the deadlock strategy, once each has taken
    its left fork and slept, both wait for a fork the other holds: both
    threads are alive and neither can move. *)
Lemma deadlock_strategy_circular_wait :
  exists (t : DiningTable) (w : world),
    setup (DiningTable_init 2 DEADLOCK 10) = Ok t
    /\ reachable t w
    /\ (is_alive <$> threads w) = [true; true]
    /\ ~ can_step w.
Proof.
  eexists _, _. split; [apply setup_spec|].
  split.
  - eapply (run_schedule_reachable _
              [AMain; AMain;
               APhil 0 false; APhil 0 false; APhil 0 false; APhil 0 false;
               APhil 1 false; APhil 1 false; APhil 1 false; APhil 1 false]);
      [apply rtc_refl|].
    vm_compute. reflexivity.
  - split; [reflexivity|].
    intros (i & time_up & w' & Hstep).
    destruct i as [|[|i]]; vm_compute in Hstep; discriminate.
Qed.

(** Mutual exclusion needs nothing of the table: it holds for every list of
    philosophers, whatever their forks. *)
Lemma mutual_exclusion_any_table (t : DiningTable) (w : world) :
  reachable t w -> mutual_exclusion w.
Proof.
  intros Hw.
  assert (sys_inv (fun _ _ => True) (fun _ => True) (threads w) (locked w))
    as (_ & _ & Hmx).
  { eapply sys_inv_reachable; eauto.
    - intros p _. destruct (cycle_shape p) as (a & b & pause & -> & Hp & _).
      destruct Hp as [-> | ->]; simpl; auto.
    - apply Forall_forall. auto. }
  exact Hmx.
Qed.

(** ** No circular wait under a ranking of the forks *)

Section ranking.
Variable rank : Z -> Z.
Variable low bound : Z.
Variable n : Z.
Variable Pp : Philosopher -> Prop.
Hypothesis rank_low : forall i, low <= rank i.
Hypothesis rank_bound : forall i, rank i <= bound.

Lemma ranked_progress (w : world) :
  sys_inv (ranked rank n) Pp (threads w) (locked w) ->
  forall (m : nat) (i : nat) (th : thread),
    threads w !! i = Some th -> is_alive th = true ->
    (forall f rest, ctl th = Body (Acquire f :: rest) ->
       bound - rank (fork_id f) < Z.of_nat m) ->
    can_step w.
Proof.
  intros (Hok & Hl & Hmx). induction m as [|m IH]; intros i th Hi Halive Hm.
  - destruct (alive_steps_or_waits w i th Hi Halive)
      as [[w' Hw']|(f & rest & Hctl & Hin)]; [by exists i, false, w'|].
    specialize (Hm f rest Hctl). pose proof (rank_bound (fork_id f)). lia.
  - destruct (alive_steps_or_waits w i th Hi Halive)
      as [[w' Hw']|(f & rest & Hctl & Hin)]; [by exists i, false, w'|].
    destruct (Hok i th Hi) as (_ & _ & Hwb). rewrite Hctl in Hwb.
    destruct Hwb as [[Hf _] _].
    apply Hl in Hin as (j & tj & Hj & Hheld).
    unfold holds in Hheld. apply list_elem_of_fmap in Hheld as (g & Hlock & Hg).
    destruct (Hok j tj Hj) as (_ & [_ HQ] & Hwbj).
    rewrite Forall_forall in HQ. destruct (HQ g Hg) as [Hgt _].
    assert (fork_id g = fork_id f) as Hid
      by (eapply table_fork_lock_inj; eauto).
    assert (is_alive tj = true) as Haj.
    { unfold is_alive. destruct (ctl tj); try done;
        rewrite Hwbj in Hg; by apply elem_of_nil in Hg. }
    apply (IH j tj Hj Haj). intros f' rest' Hctlj.
    rewrite Hctlj in Hwbj. destruct Hwbj as [[_ Hasc] _].
    rewrite Forall_forall in Hasc. specialize (Hasc g Hg).
    specialize (Hm f rest Hctl). rewrite Hid in Hasc. lia.
Qed.

Lemma ranked_no_deadlock (w : world) (i : nat) (th : thread) :
  sys_inv (ranked rank n) Pp (threads w) (locked w) ->
  threads w !! i = Some th -> is_alive th = true ->
  can_step w.
Proof.
  intros Hinv Hi Halive.
  apply (ranked_progress w Hinv (S (Z.to_nat (bound - low))) i th Hi Halive).
  intros f rest Hctl. pose proof (rank_low (fork_id f)). lia.
Qed.

End ranking.

(** ** No circular wait under the asymmetric strategy *)

Lemma asym_rank_range (i : Z) : 0 <= asym_rank i <= 2.
Proof.
  unfold asym_rank. destruct (i mod 2 =? 0), (i =? 0); lia.
Qed.

Lemma asym_rank_even_lt (n i : Z) :
  2 <= n -> 0 <= i < n -> i mod 2 = 0 ->
  asym_rank i < asym_rank ((i + 1) mod n).
Proof.
  intros Hn Hi Hev. unfold asym_rank at 1. rewrite Hev. simpl.
  destruct (decide (i + 1 = n)) as [He|Hne].
  - rewrite <- He, Z_mod_same_full. unfold asym_rank. simpl.
    destruct (Z.eqb_spec i 0); lia.
  - rewrite Z.mod_small by lia. unfold asym_rank.
    assert ((i + 1) mod 2 = 1) as ->.
    { rewrite Z.add_mod, Hev by lia. reflexivity. }
    simpl. destruct (i =? 0); lia.
Qed.

Lemma asym_rank_odd_lt (n i : Z) :
  2 <= n -> 0 <= i < n -> i mod 2 <> 0 ->
  asym_rank ((i + 1) mod n) < asym_rank i.
Proof.
  intros Hn Hi Hodd.
  assert (i mod 2 = 1) as Hi1
    by (pose proof (Z.mod_pos_bound i 2); lia).
  unfold asym_rank at 2. rewrite Hi1. simpl.
  pose proof (asym_rank_range ((i + 1) mod n)).
  destruct (decide (i + 1 = n)) as [He|Hne].
  - rewrite <- He, Z_mod_same_full. reflexivity.
  - rewrite Z.mod_small by lia. unfold asym_rank.
    assert ((i + 1) mod 2 = 0) as ->.
    { rewrite Z.add_mod, Hi1 by lia. reflexivity. }
    simpl. destruct (i + 1 =? 0); lia.
Qed.

Lemma asymmetric_phil_cycle (n : Z) (p : Philosopher) :
  2 <= n -> asymmetric_phil n p -> wb (ranked asym_rank n) [] (cycle p).
Proof.
  intros Hn (Hs & Hl & Hr & Hlid & Hrid). unfold cycle. rewrite Hs.
  unfold asymmetric_strategy.
  assert (0 <= phil_id p < n) as Hi by (rewrite <- Hlid; apply Hl).
  destruct (Z.eqb_spec (phil_id p mod 2) 0) as [Hev|Hodd]; simpl.
  - split; [split; [done|constructor]|].
    split; [|repeat split].
    split; [done|]. repeat constructor.
    rewrite Hlid, Hrid. by apply asym_rank_even_lt.
  - split; [split; [done|constructor]|].
    split; [|repeat split].
    split; [done|]. repeat constructor.
    rewrite Hlid, Hrid. by apply asym_rank_odd_lt.
Qed.

Lemma setup_asymmetric_phil (n d : Z) (t : DiningTable) :
  setup (DiningTable_init n ASYMMETRIC d) = Ok t ->
  Forall (asymmetric_phil n) (philosophers t).
Proof.
  rewrite setup_spec. intros [= <-]. simpl.
  apply Forall_fmap, Forall_forall. intros i Hi.
  apply elem_of_range in Hi. unfold asymmetric_phil. simpl.
  destruct (table_fork_mod n i Hi) as [Hl Hr]. done.
Qed.

Lemma asymmetric_inv_reachable (n d : Z) (t : DiningTable) (w : world) :
  2 <= n ->
  setup (DiningTable_init n ASYMMETRIC d) = Ok t -> reachable t w ->
  sys_inv (ranked asym_rank n) (asymmetric_phil n) (threads w) (locked w).
Proof.
  intros Hn Ht Hw. eapply sys_inv_reachable; eauto.
  - intros p. by apply asymmetric_phil_cycle.
  - intros h f [Hf _]. split; [done|constructor].
  - by eapply setup_asymmetric_phil.
Qed.

(** Under the asymmetric strategy with at least two philosophers, even or
    odd in number, no reachable state is a deadlock: as long as a
    philosopher thread is alive, some philosopher thread can move. *)
Theorem asymmetric_no_circular_wait (n d : Z) (t : DiningTable) (w : world) :
  2 <= n ->
  setup (DiningTable_init n ASYMMETRIC d) = Ok t ->
  reachable t w ->
  (exists i th, threads w !! i = Some th /\ is_alive th = true) ->
  can_step w.
Proof.
  intros Hn Ht Hw (i & th & Hi & Halive).
  eapply (ranked_no_deadlock asym_rank 0 2 n); eauto.
  - apply asym_rank_range.
  - apply asym_rank_range.
  - by eapply asymmetric_inv_reachable.
Qed.

Ltac run_to_world :=
  match goal with
  | |- run_schedule ?sched ?w0 = Some ?w /\ _ =>
      let Hrun := fresh "Hrun" in
      let Hreach := fresh "Hreach" in
      assert (run_schedule sched w0 = Some w) as Hrun
        by (vm_compute; reflexivity);
      pose proof (run_schedule_reachable _ _ _ _ (rtc_refl _ _) Hrun)
        as Hreach;
      split; [exact Hrun|]
  end.

Lemma hierarchy_no_circular_wait_witness :
  exists (t : DiningTable) (w : world),
    setup (DiningTable_init 3 HIERARCHY 10) = Ok t
    /\ run_schedule
         [AMain; AMain; AMain;
          APhil 0 false; APhil 0 false; APhil 0 false;
          APhil 1 false; APhil 1 false; APhil 1 false;
          APhil 2 false; APhil 2 false]
         (initial_world t) = Some w
    /\ phil_step 0 false w = None
    /\ phil_step 2 false w = None
    /\ can_step w.
Proof.
  eexists _, _. split; [apply setup_spec|]. run_to_world.
  split; [reflexivity|]. split; [reflexivity|].
  apply (hierarchy_no_circular_wait 3 10 _ _ ltac:(lia)
           (setup_spec 3 HIERARCHY 10) Hreach).
  eexists 0%nat, _. split; reflexivity.
Defined.

Lemma asymmetric_no_circular_wait_witness :
  exists (t : DiningTable) (w : world),
    setup (DiningTable_init 3 ASYMMETRIC 10) = Ok t
    /\ run_schedule
         [AMain; AMain; AMain;
          APhil 0 false; APhil 0 false; APhil 0 false;
          APhil 1 false; APhil 1 false; APhil 1 false;
          APhil 2 false; APhil 2 false]
         (initial_world t) = Some w
    /\ phil_step 2 false w = None
    /\ can_step w.
Proof.
  eexists _, _. split; [apply setup_spec|]. run_to_world.
  split; [reflexivity|].
  apply (asymmetric_no_circular_wait 3 10 _ _ ltac:(lia)
           (setup_spec 3 ASYMMETRIC 10) Hreach).
  eexists 0%nat, _. split; reflexivity.
Defined.

(** ** What a step changes *)

Lemma reachable_ind (t : DiningTable) (P : world -> Prop) :
  P (initial_world t) ->
  (forall w w', reachable t w -> P w -> main_step w = Some w' -> P w') ->
  (forall w w' i time_up,
     reachable t w -> P w -> phil_step i time_up w = Some w' -> P w') ->
  (forall w e,
     reachable t w -> P w -> main_ctl w = MSleep ->
     sleep_may_raise (sim_duration w) e -> P (set_main w (MRaised e))) ->
  forall w, reachable t w -> P w.
Proof.
  intros H0 Hmain Hphil Hsleep w Hw.
  assert (reachable t w /\ P w) as [_ HP]; [|exact HP].
  eapply (rtc_ind_r (fun w0 => reachable t w0 /\ P w0)); [| |exact Hw].
  - split; [apply rtc_refl|exact H0].
  - intros w1 w2 _ Hstep [Hr HP].
    split; [eapply rtc_r; [exact Hr|exact Hstep]|].
    destruct Hstep as [? ? Hm|? ? ? ? Hp|? ? Hm Hs]; eauto.
Qed.

Lemma same_static_refl (p : Philosopher) : same_static p p.
Proof. by repeat split. Qed.

Lemma same_static_trans (p q r : Philosopher) :
  same_static p q -> same_static q r -> same_static p r.
Proof.
  intros (? & ? & ? & ? & ?) (? & ? & ? & ? & ?).
  repeat split; congruence.
Qed.

Lemma same_static_cycle (p q : Philosopher) :
  same_static p q -> cycle p = cycle q.
Proof.
  intros (Hi & Hl & Hr & Hs & _). unfold cycle, deadlock_strategy,
    hierarchy_strategy, asymmetric_strategy.
  by rewrite Hi, Hl, Hr, Hs.
Qed.

(** A step of a philosopher thread touches that thread only, leaves its
    identity, forks, strategy and [running] flag alone, and adds at most one
    meal. *)
Lemma phil_step_frame (i : nat) (time_up : bool) (w w' : world) :
  phil_step i time_up w = Some w' ->
  sim_duration w' = sim_duration w /\ main_ctl w' = main_ctl w /\
  report w' = report w /\
  exists th th',
    threads w !! i = Some th /\ threads w' = <[i := th']> (threads w)
    /\ is_alive th = true /\ started th'
    /\ running (self th') = running (self th)
    /\ same_static (self th') (self th)
    /\ meals_eaten (self th) <= meals_eaten (self th')
         <= meals_eaten (self th) + 1.
Proof.
  unfold phil_step.
  destruct (threads w !! i) as [th|] eqn:Hi; [|discriminate].
  assert (forall th' l',
            started th' ->
            running (self th') = running (self th) ->
            same_static (self th') (self th) ->
            meals_eaten (self th) <= meals_eaten (self th')
              <= meals_eaten (self th) + 1 ->
            is_alive th = true ->
            let w1 := set_locked (set_thread w i th') l' in
            sim_duration w1 = sim_duration w /\ main_ctl w1 = main_ctl w /\
            report w1 = report w /\
            exists th0 th1,
              Some th = Some th0 /\ threads w1 = <[i := th1]> (threads w)
              /\ is_alive th0 = true /\ started th1
              /\ running (self th1) = running (self th0)
              /\ same_static (self th1) (self th0)
              /\ meals_eaten (self th0) <= meals_eaten (self th1)
                   <= meals_eaten (self th0) + 1) as Hframe.
  { intros th' l' ? ? ? ? ?. simpl. repeat split. by exists th, th'. }
  assert (forall p, same_static p p) as Hrefl by (by repeat split).
  unfold is_alive in Hframe.
  destruct (ctl th) as [| |[|ins rest]| |] eqn:Hctl; try discriminate.
  - destruct (loop_test (self th) time_up); intros [= <-];
      apply (Hframe _ (locked w)); simpl; try done; lia.
  - intros [= <-]. apply (Hframe _ (locked w)); simpl; try done; lia.
  - unfold exec_instr. destruct ins as [ms| |f|f].
    + intros [= <-]. apply Hframe; simpl; try done; lia.
    + intros [= <-].
      apply Hframe; simpl; first [done | lia | by repeat split].
    + destruct (decide (fork_lock f ∈ locked w)); [discriminate|].
      intros [= <-]. apply Hframe; simpl; try done; lia.
    + destruct (decide (fork_lock f ∈ locked w));
        intros [= <-]; apply Hframe; simpl; try done; lia.
Qed.

(** A step of the main thread takes and frees no lock and changes no
    thread, except that it starts a thread or clears its [running] flag. *)
Lemma main_step_frame (w w' : world) :
  main_step w = Some w' ->
  sim_duration w' = sim_duration w /\ locked w' = locked w /\
  length (threads w') = length (threads w) /\
  forall j th', threads w' !! j = Some th' ->
    exists th, threads w !! j = Some th
      /\ held th' = held th
      /\ same_static (self th') (self th)
      /\ meals_eaten (self th') = meals_eaten (self th)
      /\ (ctl th' = ctl th \/ (ctl th = NotStarted /\ ctl th' = LoopTop))
      /\ (running (self th') = running (self th)
          \/ running (self th') = false).
Proof.
  assert (forall j th', threads w !! j = Some th' ->
            exists th, threads w !! j = Some th
              /\ held th' = held th
              /\ same_static (self th') (self th)
              /\ meals_eaten (self th') = meals_eaten (self th)
              /\ (ctl th' = ctl th \/
                  (ctl th = NotStarted /\ ctl th' = LoopTop))
              /\ (running (self th') = running (self th)
                  \/ running (self th') = false)) as Hsame.
  { intros j th Hj. exists th. repeat split; auto. }
  unfold main_step.
  destruct (main_ctl w) as [k| |k|k| | |]; try discriminate.
  - destruct (threads w !! k) as [t|] eqn:Hk; [|by intros [= <-]].
    destruct (ctl t) eqn:Hctl; intros [= <-]; simpl; try done.
    rewrite length_insert. repeat split.
    intros j th' Hj. apply lookup_insert_inv in Hj as [[-> ->]|[_ Hj]]; auto.
    exists t. simpl. repeat split; auto.
  - destruct (sleep_error (sim_duration w)); by intros [= <-].
  - destruct (threads w !! k) as [t|] eqn:Hk; [|by intros [= <-]].
    intros [= <-]; simpl. rewrite length_insert. repeat split.
    intros j th' Hj. apply lookup_insert_inv in Hj as [[-> ->]|[_ Hj]]; auto.
    exists t. simpl. repeat split; auto.
  - destruct (threads w !! k); by intros [= <-].
  - by intros [= <-].
Qed.

(** ** The progress of [start] *)

Lemma start_inv_initial (t : DiningTable) :
  Forall (fun p => running p = true) (philosophers t) ->
  start_inv (table_duration t) (initial_world t).
Proof.
  intros Hrun. split; [done|]. split; [by left|]. simpl.
  intros j th Hj. rewrite list_lookup_fmap in Hj.
  destruct (philosophers t !! j) as [p|] eqn:Hp; [|discriminate].
  injection Hj as <-. simpl. split; [|split; [done|lia]].
  rewrite Forall_forall in Hrun. apply Hrun.
  by eapply list_elem_of_lookup_2.
Qed.

Lemma start_inv_main_step (d : Z) (w w' : world) :
  start_inv d w -> main_step w = Some w' -> start_inv d w'.
Proof.
  intros (Hd & Hrep & Hinv). unfold main_step.
  destruct (main_ctl w) as [k| |k|k| | |] eqn:Hm; try discriminate.
  - destruct (threads w !! k) as [t|] eqn:Hk.
    + destruct (Hinv k t Hk) as (Hrun & Hns & _).
      rewrite Hns by lia. intros [= <-].
      split; [done|]. split; [simpl; destruct Hrep; [by left|congruence]|].
      simpl. intros j th Hj.
      apply lookup_insert_inv in Hj as [[-> ->]|[Hne Hj]]; simpl.
      * split; [done|]. split; [lia|]. intros _. unfold started. by simpl.
      * destruct (Hinv j th Hj) as (? & Hge & Hlt).
        split; [done|]. split; [intros; apply Hge; lia|].
        intros. apply Hlt. lia.
    + intros [= <-]. split; [done|].
      split; [simpl; destruct Hrep; [by left|congruence]|]. simpl.
      apply lookup_ge_None in Hk.
      split; apply Forall_lookup; intros j th Hj;
        pose proof (lookup_lt_Some _ _ _ Hj);
        destruct (Hinv j th Hj) as (? & _ & Hlt); [apply Hlt; lia|done].
  - destruct Hinv as [Hst Hrun].
    destruct (sleep_error (sim_duration w)) as [e|] eqn:He; intros [= <-].
    + split; [done|]. split; [simpl; destruct Hrep; [by left|congruence]|].
      simpl. split; [|done]. left. by rewrite <- Hd.
    + split; [done|]. split; [simpl; destruct Hrep; [by left|congruence]|].
      simpl. split; [done|]. intros j th Hj. split; [lia|]. intros _.
      rewrite Forall_lookup in Hrun. by eapply Hrun.
  - destruct Hinv as [Hst Hk].
    destruct (threads w !! k) as [t|] eqn:Hkt; intros [= <-].
    + split; [done|]. split; [simpl; destruct Hrep; [by left|congruence]|].
      simpl. split.
      * apply Forall_insert; [done|]. unfold started. simpl.
        rewrite Forall_lookup in Hst. by apply (Hst k t).
      * intros j th Hj.
        apply lookup_insert_inv in Hj as [[-> ->]|[Hne Hj]]; simpl.
        -- split; [by intros _|lia].
        -- destruct (Hk j th Hj) as [Hlt Hge].
           split; [intros; apply Hlt; lia|intros; apply Hge; lia].
    + split; [done|]. split; [simpl; destruct Hrep; [by left|congruence]|].
      simpl. split; [done|]. apply lookup_ge_None in Hkt.
      apply Forall_lookup. intros j th Hj.
      pose proof (lookup_lt_Some _ _ _ Hj).
      apply (Hk j th Hj). lia.
  - destruct (threads w !! k); intros [= <-];
      (split; [done|]);
      (split; [simpl; destruct Hrep; [by left|congruence]|]); done.
  - intros [= <-]. split; [done|]. split; [by right|]. done.
Qed.

Lemma start_inv_phil_step (d : Z) (i : nat) (time_up : bool) (w w' : world) :
  start_inv d w -> phil_step i time_up w = Some w' -> start_inv d w'.
Proof.
  intros (Hd & Hrep & Hinv) Hstep.
  destruct (phil_step_frame _ _ _ _ Hstep)
    as (Hd' & Hm' & Hr' & th & th' & Hi & Hth & Halive & Hst' & Hrun' & _).
  assert (started th) as Hst.
  { unfold started. unfold is_alive in Halive. by destruct (ctl th). }
  assert (forall P : thread -> Prop,
            (P th -> P th') -> Forall P (threads w) -> Forall P (threads w'))
    as Hall.
  { intros P HP HF. rewrite Hth. apply Forall_insert; [done|].
    apply HP. rewrite Forall_lookup in HF. by apply (HF i th). }
  split; [congruence|]. split; [rewrite Hr', Hm'; done|].
  rewrite Hm'. destruct (main_ctl w) as [k| |k|k| | |].
  - intros j tj Hj. rewrite Hth in Hj.
    apply lookup_insert_inv in Hj as [[-> ->]|[Hne Hj]]; [|by apply Hinv].
    destruct (Hinv i th Hi) as (Hrun & Hge & Hlt).
    split; [congruence|]. split; [|done].
    intros Hk. by destruct (Hst (Hge Hk)).
  - destruct Hinv as [H1 H2]. split; apply Hall; auto. congruence.
  - destruct Hinv as [H1 H2]. split; [by apply Hall|].
    intros j tj Hj. rewrite Hth in Hj.
    apply lookup_insert_inv in Hj as [[-> ->]|[Hne Hj]]; [|by apply H2].
    destruct (H2 i th Hi) as [Hlt Hge]. unfold stopped in *.
    split; intros Hk; rewrite Hrun'; auto.
  - destruct Hinv as [H1 H2]. split; apply Hall; auto.
    unfold stopped. congruence.
  - destruct Hinv as [H1 H2]. split; apply Hall; auto.
    unfold stopped. congruence.
  - destruct Hinv as [H1 H2]. split; apply Hall; auto.
    unfold stopped. congruence.
  - destruct Hinv as (H0 & H1 & H2). split; [done|].
    split; apply Hall; auto. congruence.
Qed.

Lemma setup_running (n : Z) (s : Strategy) (d : Z) (t : DiningTable) :
  setup (DiningTable_init n s d) = Ok t ->
  table_duration t = d /\
  Forall (fun p => running p = true /\ meals_eaten p = 0) (philosophers t).
Proof.
  rewrite setup_spec. intros [= <-]. simpl. split; [done|].
  apply Forall_fmap, Forall_forall. by intros i _.
Qed.

Lemma start_inv_reachable (n : Z) (s : Strategy) (d : Z) (t : DiningTable)
    (w : world) :
  setup (DiningTable_init n s d) = Ok t -> reachable t w -> start_inv d w.
Proof.
  intros Ht. destruct (setup_running _ _ _ _ Ht) as [Hd Hrun].
  apply (reachable_ind t (start_inv d)).
  - rewrite <- Hd. apply start_inv_initial.
    eapply Forall_impl; [exact Hrun|]. by intros p [? _].
  - intros w0 w1 _. apply start_inv_main_step.
  - intros w0 w1 i time_up _. apply start_inv_phil_step.
  - intros w0 e _ (Hd0 & Hrep & Hinv) Hm He. rewrite Hm in Hinv, Hrep.
    split; [done|]. split; [simpl; destruct Hrep; [by left|done]|].
    simpl. split; [|done]. right. by rewrite <- Hd0.
Qed.

Lemma basic_inv_reachable (t : DiningTable) (w : world) :
  reachable t w ->
  sys_inv (fun _ _ => True) (fun _ => True) (threads w) (locked w).
Proof.
  intros Hw. eapply sys_inv_reachable; eauto.
  - intros p _. destruct (cycle_shape p) as (a & b & pause & -> & Hp & _).
    destruct Hp as [-> | ->]; simpl; auto.
  - apply Forall_forall. auto.
Qed.

(** No philosopher thread ever raises: whenever a thread is about to leave
    a [with] block the lock of that block is taken and the fork is the
    innermost one the thread holds; and a thread that is not alive holds no
    fork.  This holds for every table and every strategy. *)
Theorem philosophers_never_raise (t : DiningTable) (w : world) (i : nat)
    (th : thread) :
  reachable t w ->
  threads w !! i = Some th ->
  (forall e, ctl th <> Crashed e)
  /\ (forall f rest, ctl th = Body (Release f :: rest) ->
        fork_lock f ∈ locked w /\ exists h', held th = f :: h')
  /\ (is_alive th = false -> held th = []).
Proof.
  intros Hw Hi. pose proof (basic_inv_reachable t w Hw) as Hinv.
  pose proof (proj1 Hinv i th Hi) as (_ & _ & Hwb).
  split; [|split].
  - intros e He. by rewrite He in Hwb.
  - intros f rest Hctl.
    destruct (release_holds _ _ _ _ _ _ _ _ Hinv Hi Hctl)
      as [(h' & Hh & _) Hin].
    eauto.
  - unfold is_alive. destruct (ctl th); try done.
Qed.

Lemma philosophers_never_raise_witness :
  exists (t : DiningTable) (w : world) (th : thread),
    setup (DiningTable_init 2 ASYMMETRIC 10) = Ok t
    /\ run_schedule
         [AMain; AMain;
          APhil 1 false; APhil 1 false; APhil 1 false; APhil 1 false;
          APhil 1 false; APhil 1 false]
         (initial_world t) = Some w
    /\ threads w !! 1%nat = Some th
    /\ ctl th = Body [Release (mkFork 1 1); Release (mkFork 0 0)]
    /\ fork_lock (mkFork 1 1) ∈ locked w
    /\ exists h', held th = mkFork 1 1 :: h'.
Proof.
  eexists _, _, _. split; [apply setup_spec|]. run_to_world.
  split; [reflexivity|]. split; [reflexivity|].
  exact (proj1 (proj2 (philosophers_never_raise _ _ 1%nat _ Hreach eq_refl))
           (mkFork 1 1) [Release (mkFork 0 0)] eq_refl).
Defined.






Lemma stop_signal_reaches_every_philosopher_aux (n : Z) (s : Strategy)
    (d : Z) (t : DiningTable) (w : world) :
  setup (DiningTable_init n s d) = Ok t ->
  reachable t w ->
  past_stop (main_ctl w) = true ->
  Forall started (threads w) /\ Forall stopped (threads w).
Proof.
  intros Ht Hw.
  destruct (start_inv_reachable _ _ _ _ _ Ht Hw) as (_ & _ & Hinv).
  destruct (main_ctl w); try discriminate; intros _; exact Hinv.
Qed.

(** The stop signal: before [start] reaches its stop loop every
    philosopher's [running] flag is still set; once the stop loop is done
    (joins, report, return) every philosopher has been started and has its
    flag cleared; and a report exists only after [start] has returned. *)
Theorem stop_signal_reaches_every_philosopher (n : Z) (s : Strategy) (d : Z)
    (t : DiningTable) (w : world) :
  setup (DiningTable_init n s d) = Ok t ->
  reachable t w ->
  (before_stop (main_ctl w) = true ->
     Forall (fun th => running (self th) = true) (threads w))
  /\ (past_stop (main_ctl w) = true ->
     Forall started (threads w) /\ Forall stopped (threads w))
  /\ (report w <> None -> main_ctl w = MReturned).
Proof.
  intros Ht Hw.
  destruct (start_inv_reachable _ _ _ _ _ Ht Hw) as (_ & Hrep & Hinv).
  split; [|split].
  - destruct (main_ctl w); try discriminate; intros _.
    + apply Forall_lookup. intros j th Hj. by apply (Hinv j th Hj).
    + apply Hinv.
    + apply Hinv.
  - destruct (main_ctl w); try discriminate; intros _; exact Hinv.
  - intros Hne. by destruct Hrep.
Qed.

Lemma stop_signal_reaches_every_philosopher_witness :
  exists (t : DiningTable) (w : world),
    setup (DiningTable_init 2 DEADLOCK 10) = Ok t
    /\ run_schedule
         [AMain; AMain; APhil 0 false; APhil 0 false; APhil 0 false;
          AMain; AMain; AMain; AMain; AMain]
         (initial_world t) = Some w
    /\ past_stop (main_ctl w) = true
    /\ Forall stopped (threads w).
Proof.
  eexists _, _. split; [apply setup_spec|]. run_to_world.
  split; [reflexivity|].
  exact (proj2 (proj1 (proj2 (stop_signal_reaches_every_philosopher
                                2 DEADLOCK 10 _ _
                                (setup_spec 2 DEADLOCK 10) Hreach))
                  eq_refl)).
Defined.

(** ** The report *)

Lemma alive_filter_spec (ths : list thread) :
  (filter (fun th => is_alive th = true) ths = [] <->
   Forall (fun th => is_alive th = false) ths)
  /\ (length (filter (fun th => is_alive th = true) ths) = length ths <->
      Forall (fun th => is_alive th = true) ths).
Proof.
  induction ths as [|th ths [IH1 IH2]].
  - split; split; auto.
  - rewrite filter_cons, !Forall_cons.
    pose proof (length_filter (fun th => is_alive th = true) ths) as Hle.
    destruct (decide (is_alive th = true)) as [Ha|Hna]; simpl.
    + split.
      * split; [discriminate|]. intros [Hf _]. congruence.
      * rewrite <- IH2. split; [intros [= ?]; auto|intros [_ ->]; done].
    + split.
      * rewrite IH1. split; [|by intros [_ ?]].
        intros ?. split; [|done]. by destruct (is_alive th).
      * split; [lia|]. by intros [? _].
Qed.

(** [report_results]: the number of blocked philosophers lies between 0 and
    the number of philosophers, deadlock is reported exactly when some
    philosopher thread is alive, and the count is 0 exactly when none is. *)
Theorem report_results_verdict (ths : list thread) :
  0 <= alive_count (report_results ths) <= Z.of_nat (length ths)
  /\ (deadlock_detected (report_results ths) = true <->
      exists th, th ∈ ths /\ is_alive th = true)
  /\ (deadlock_detected (report_results ths) = false <->
      Forall (fun th => is_alive th = false) ths)
  /\ (alive_count (report_results ths) = Z.of_nat (length ths) <->
      Forall (fun th => is_alive th = true) ths).
Proof.
  unfold report_results. simpl.
  destruct (alive_filter_spec ths) as [Hnil Hfull].
  pose proof (length_filter (fun th => is_alive th = true) ths) as Hle.
  split; [lia|]. split; [|split].
  - rewrite Z.ltb_lt. split.
    + intros Hpos.
      destruct (filter (fun th => is_alive th = true) ths) as [|th l] eqn:Ha;
        [simpl in Hpos; lia|].
      exists th.
      assert (th ∈ filter (fun th => is_alive th = true) ths) as Hin
        by (rewrite Ha; left).
      by apply list_elem_of_filter in Hin as [? ?].
    + intros (th & Hin & Hal).
      assert (th ∈ filter (fun th => is_alive th = true) ths) as Hth
        by (by apply list_elem_of_filter).
      destruct (filter (fun th => is_alive th = true) ths);
        [by apply elem_of_nil in Hth|simpl; lia].
  - rewrite <- Hnil, Z.ltb_ge.
    destruct (filter (fun th => is_alive th = true) ths);
      simpl; split; try done; lia.
  - rewrite <- Hfull. lia.
Qed.

(** ** Threads stay on their cycle *)

Lemma holding_snoc (pre : list instr) (ins : instr) :
  holding (pre ++ [ins]) = enter (holding pre) ins.
Proof. unfold holding. by rewrite fold_left_app. Qed.

Lemma in_cycle_next (th : thread) (ins : instr) (rest : list instr)
    (p : Philosopher) :
  in_cycle th -> ctl th = Body (ins :: rest) ->
  cycle p = cycle (self th) ->
  in_cycle (mkThread p (Body rest) (enter (held th) ins)).
Proof.
  unfold in_cycle. intros Hin Hctl Hp. rewrite Hctl in Hin.
  destruct Hin as (pre & Hc & Hh). simpl.
  exists (pre ++ [ins]). rewrite Hp, Hc, <- app_assoc, holding_snoc, Hh.
  done.
Qed.

Lemma holding_cycle (p : Philosopher) : holding (cycle p) = [].
Proof.
  destruct (cycle_shape p) as (a & b & pause & -> & Hp & _).
  by destruct Hp as [-> | ->].
Qed.

Lemma in_cycle_phil_step (i : nat) (time_up : bool) (w w' : world) :
  Forall in_cycle (threads w) ->
  phil_step i time_up w = Some w' ->
  Forall in_cycle (threads w').
Proof.
  intros Hall. unfold phil_step.
  destruct (threads w !! i) as [th|] eqn:Hi; [|discriminate].
  assert (in_cycle th) as Hin
    by (rewrite Forall_lookup in Hall; by apply (Hall i th)).
  destruct (ctl th) as [| |[|ins rest]| |] eqn:Hctl; try discriminate.
  - unfold in_cycle in Hin. rewrite Hctl in Hin.
    destruct (loop_test (self th) time_up); intros [= <-]; simpl;
      apply Forall_insert; try done.
    unfold in_cycle. simpl. by exists [].
  - intros [= <-]. simpl. apply Forall_insert; [done|].
    unfold in_cycle in *. rewrite Hctl in Hin. simpl.
    destruct Hin as (pre & Hc & ->). rewrite app_nil_r in Hc.
    rewrite <- Hc. apply holding_cycle.
  - unfold exec_instr. destruct ins as [ms| |f|f].
    + intros [= <-]. simpl. apply Forall_insert; [done|].
      by apply (in_cycle_next th (Sleep ms) rest (self th)).
    + intros [= <-]. simpl. apply Forall_insert; [done|].
      by apply (in_cycle_next th IncMeals rest (add_meal (self th))).
    + destruct (decide (fork_lock f ∈ locked w)); [discriminate|].
      intros [= <-]. simpl. apply Forall_insert; [done|].
      by apply (in_cycle_next th (Acquire f) rest (self th)).
    + destruct (decide (fork_lock f ∈ locked w)); intros [= <-]; simpl;
        apply Forall_insert; try done.
      by apply (in_cycle_next th (Release f) rest (self th)).
Qed.

Lemma in_cycle_main_step (w w' : world) :
  Forall in_cycle (threads w) -> main_step w = Some w' ->
  Forall in_cycle (threads w').
Proof.
  intros Hall Hstep.
  destruct (main_step_frame _ _ Hstep) as (_ & _ & _ & Hth).
  apply Forall_lookup. intros j th' Hj.
  destruct (Hth j th' Hj) as (th & Hj0 & Hheld & Hst & _ & Hctl & _).
  rewrite Forall_lookup in Hall. specialize (Hall j th Hj0).
  unfold in_cycle in *. rewrite Hheld.
  destruct Hctl as [Hc|[Hc0 Hc]]; rewrite Hc; [|by rewrite Hc0 in Hall].
  destruct (ctl th); try done.
  by rewrite (same_static_cycle _ _ Hst).
Qed.

Lemma in_cycle_reachable (t : DiningTable) (w : world) :
  reachable t w -> Forall in_cycle (threads w).
Proof.
  apply (reachable_ind t (fun w => Forall in_cycle (threads w))).
  - simpl. apply Forall_fmap, Forall_forall. by intros p _.
  - intros w0 w1 _. apply in_cycle_main_step.
  - intros w0 w1 i time_up _. apply in_cycle_phil_step.
  - by intros w0 e _ Hall _ _.
Qed.

Lemma frame_inv_reachable (t : DiningTable) (w : world) :
  reachable t w -> frame_inv t w.
Proof.
  apply (reachable_ind t (frame_inv t)).
  - split; [simpl; by rewrite length_map|].
    intros i th p Hi Hp. simpl in Hi. rewrite list_lookup_fmap, Hp in Hi.
    injection Hi as <-. simpl. split; [apply same_static_refl|lia].
  - intros w0 w1 _ [Hlen Hfr] Hstep.
    destruct (main_step_frame _ _ Hstep) as (_ & _ & Hlen' & Hth).
    split; [congruence|]. intros j th' p Hj Hp.
    destruct (Hth j th' Hj) as (th & Hj0 & _ & Hst & Hmeals & _).
    destruct (Hfr j th p Hj0 Hp) as [Hst0 Hm0].
    split; [by eapply same_static_trans|lia].
  - intros w0 w1 i time_up _ [Hlen Hfr] Hstep.
    destruct (phil_step_frame _ _ _ _ Hstep)
      as (_ & _ & _ & th & th' & Hi & Hth & _ & _ & _ & Hst & Hmeals).
    split; [by rewrite Hth, length_insert|].
    intros j tj p Hj Hp. rewrite Hth in Hj.
    apply lookup_insert_inv in Hj as [[-> ->]|[_ Hj]];
      [|by apply (Hfr j tj p)].
    destruct (Hfr i th p Hi Hp) as [Hst0 Hm0].
    split; [by eapply same_static_trans|lia].
  - by intros w0 e _ Hfr _ _.
Qed.

(** ** After the stop signal *)

Lemma sum_list_insert (f : thread -> nat) (l : list thread) (i : nat)
    (x y : thread) :
  l !! i = Some y ->
  (sum_list (f <$> <[i := x]> l) + f y = sum_list (f <$> l) + f x)%nat.
Proof.
  revert i. induction l as [|z l IH]; intros [|i] Hi; try discriminate.
  - injection Hi as ->. csimpl. lia.
  - csimpl in *. specialize (IH i Hi). lia.
Qed.

Lemma cycle_length (p : Philosopher) : (length (cycle p) <= 8)%nat.
Proof.
  destruct (cycle_shape p) as (a & b & pause & -> & Hp & _).
  destruct Hp as [-> | ->]; simpl; lia.
Qed.

Lemma in_cycle_remaining (th : thread) :
  in_cycle th -> (remaining th <= 10)%nat.
Proof.
  unfold in_cycle, remaining. destruct (ctl th); try lia.
  intros (pre & Hc & _). pose proof (cycle_length (self th)) as Hlen.
  rewrite Hc, length_app in Hlen. lia.
Qed.

Lemma remaining_total_bound (w : world) :
  Forall in_cycle (threads w) ->
  (remaining_total w <= 10 * length (threads w))%nat.
Proof.
  unfold remaining_total. induction 1 as [|th l Hth _ IH]; csimpl; [lia|].
  apply in_cycle_remaining in Hth. lia.
Qed.

Lemma stopped_step_decreases (i : nat) (time_up : bool) (w w' : world) :
  Forall stopped (threads w) ->
  phil_step i time_up w = Some w' ->
  (remaining_total w' < remaining_total w)%nat /\ Forall stopped (threads w').
Proof.
  intros Hall Hstep. split.
  - revert Hstep. unfold phil_step.
    destruct (threads w !! i) as [th|] eqn:Hi; [|discriminate].
    assert (running (self th) = false) as Hrun
      by (rewrite Forall_lookup in Hall; by apply (Hall i th)).
    assert (forall th' l',
              (remaining th' < remaining th)%nat ->
              (remaining_total (set_locked (set_thread w i th') l')
                 < remaining_total w)%nat) as Hdec.
    { intros th' l' Hlt. unfold remaining_total. simpl.
      pose proof (sum_list_insert remaining (threads w) i th' th Hi). lia. }
    unfold remaining in Hdec.
    destruct (ctl th) as [| |[|ins rest]| |] eqn:Hctl; try discriminate.
    + unfold loop_test. rewrite Hrun. simpl. intros [= <-].
      apply (Hdec _ (locked w)). simpl. lia.
    + intros [= <-]. apply (Hdec _ (locked w)). simpl. lia.
    + unfold exec_instr. destruct ins as [ms| |f|f].
      * intros [= <-]. apply Hdec. simpl. lia.
      * intros [= <-]. apply Hdec. simpl. lia.
      * destruct (decide (fork_lock f ∈ locked w)); [discriminate|].
        intros [= <-]. apply Hdec. simpl. lia.
      * destruct (decide (fork_lock f ∈ locked w)); intros [= <-];
          apply Hdec; simpl; lia.
  - destruct (phil_step_frame _ _ _ _ Hstep)
      as (_ & _ & _ & th & th' & Hi & Hth & _ & _ & Hrun & _).
    rewrite Hth. apply Forall_insert; [done|]. unfold stopped. rewrite Hrun.
    rewrite Forall_lookup in Hall. by apply (Hall i th).
Qed.

Lemma past_stop_main_step (w w' : world) :
  past_stop (main_ctl w) = true -> main_step w = Some w' ->
  threads w' = threads w /\ past_stop (main_ctl w') = true.
Proof.
  unfold main_step. destruct (main_ctl w) as [k| |k|k| | |]; try done.
  - destruct (threads w !! k); by intros _ [= <-].
  - by intros _ [= <-].
Qed.

(** A step of a philosopher that has been told to stop never lengthens what
    a thread has left to execute: the thread goes on inside the iteration it
    is in, or leaves its loop; it does not begin another iteration. *)
Lemma stopped_step_pointwise (i : nat) (time_up : bool) (w w' : world) :
  Forall stopped (threads w) ->
  phil_step i time_up w = Some w' ->
  forall j th', threads w' !! j = Some th' ->
    exists th, threads w !! j = Some th
      /\ (remaining th' <= remaining th)%nat.
Proof.
  intros Hall. unfold phil_step.
  destruct (threads w !! i) as [th|] eqn:Hi; [|discriminate].
  assert (running (self th) = false) as Hrun
    by (rewrite Forall_lookup in Hall; by apply (Hall i th)).
  assert (forall th1 l',
            (remaining th1 <= remaining th)%nat ->
            forall j th', threads (set_locked (set_thread w i th1) l') !! j
                          = Some th' ->
              exists th0, threads w !! j = Some th0
                /\ (remaining th' <= remaining th0)%nat) as Hpt.
  { intros th1 l' Hle j th' Hj. simpl in Hj.
    apply lookup_insert_inv in Hj as [[-> ->]|[_ Hj]]; eauto. }
  unfold remaining in Hpt.
  destruct (ctl th) as [| |[|ins rest]| |] eqn:Hctl; try discriminate.
  - unfold loop_test. rewrite Hrun. simpl. intros [= <-].
    apply (Hpt _ (locked w)). simpl. lia.
  - intros [= <-]. apply (Hpt _ (locked w)). simpl. lia.
  - unfold exec_instr. destruct ins as [ms| |f|f].
    + intros [= <-]. apply Hpt. simpl. lia.
    + intros [= <-]. apply Hpt. simpl. lia.
    + destruct (decide (fork_lock f ∈ locked w)); [discriminate|].
      intros [= <-]. apply Hpt. simpl. lia.
    + destruct (decide (fork_lock f ∈ locked w)); intros [= <-];
        apply Hpt; simpl; lia.
Qed.

(** Once every philosopher has been told to stop, the philosopher threads
    make a bounded number of further steps however the run goes on: the steps
    they make and what they have left to execute together never exceed what
    was left before, which for [n] philosophers is at most [10 * n]; the
    [running] flags stay cleared; and no thread begins another iteration of
    its loop, since what a thread has left to execute never grows.  A thread
    may still wait for a fork for ever: nothing here says that it leaves its
    loop. *)
Theorem stopped_philosophers_make_bounded_steps (n : Z) (s : Strategy)
    (d : Z) (t : DiningTable) (w w' : world) (sched : list action) :
  setup (DiningTable_init n s d) = Ok t ->
  reachable t w ->
  past_stop (main_ctl w) = true ->
  run_schedule sched w = Some w' ->
  (length (filter (fun a => phil_action a = true) sched)
     + remaining_total w' <= remaining_total w)%nat
  /\ (remaining_total w <= 10 * Z.to_nat n)%nat
  /\ Forall stopped (threads w')
  /\ (forall j th', threads w' !! j = Some th' ->
        exists th, threads w !! j = Some th
          /\ (remaining th' <= remaining th)%nat).
Proof.
  intros Ht Hw Hpast Hrun.
  destruct (stop_signal_reaches_every_philosopher_aux n s d t w Ht Hw Hpast)
    as [_ Hstopped].
  split; [|split; [|split]].
  - clear Hw. revert w Hpast Hstopped Hrun.
    induction sched as [|a sched IH]; intros w Hpast Hstopped Hrun.
    + injection Hrun as <-. simpl. lia.
    + simpl in Hrun. destruct (do_action a w) as [w1|] eqn:Ha; [|discriminate].
      destruct a as [|i time_up]; simpl in Ha.
      * destruct (past_stop_main_step _ _ Hpast Ha) as [Hth Hpast1].
        rewrite filter_cons_False by done.
        assert (remaining_total w1 = remaining_total w) as <-
          by (unfold remaining_total; by rewrite Hth).
        apply IH; try done. by rewrite Hth.
      * destruct (stopped_step_decreases _ _ _ _ Hstopped Ha) as [Hlt Hst1].
        destruct (phil_step_frame _ _ _ _ Ha) as (_ & Hm & _).
        rewrite filter_cons_True by done. simpl.
        assert (past_stop (main_ctl w1) = true) as Hpast1 by (by rewrite Hm).
        specialize (IH w1 Hpast1 Hst1 Hrun). lia.
  - pose proof (remaining_total_bound w (in_cycle_reachable t w Hw)) as Hb.
    destruct (frame_inv_reachable t w Hw) as [Hlen _].
    rewrite setup_spec in Ht. injection Ht as <-. simpl in Hlen.
    rewrite length_map, length_range in Hlen. lia.
  - clear Hw. revert w Hpast Hstopped Hrun.
    induction sched as [|a sched IH]; intros w Hpast Hstopped Hrun.
    + by injection Hrun as <-.
    + simpl in Hrun. destruct (do_action a w) as [w1|] eqn:Ha; [|discriminate].
      destruct a as [|i time_up]; simpl in Ha.
      * destruct (past_stop_main_step _ _ Hpast Ha) as [Hth Hpast1].
        apply (IH w1); try done. by rewrite Hth.
      * destruct (stopped_step_decreases _ _ _ _ Hstopped Ha) as [Hlt Hst1].
        destruct (phil_step_frame _ _ _ _ Ha) as (_ & Hm & _).
        apply (IH w1); try done. by rewrite Hm.
  - clear Hw. revert w Hpast Hstopped Hrun.
    induction sched as [|a sched IH]; intros w Hpast Hstopped Hrun.
    + injection Hrun as <-. eauto.
    + simpl in Hrun. destruct (do_action a w) as [w1|] eqn:Ha; [|discriminate].
      destruct a as [|i time_up]; simpl in Ha.
      * destruct (past_stop_main_step _ _ Hpast Ha) as [Hth Hpast1].
        rewrite <- Hth. apply (IH w1); try done. by rewrite Hth.
      * destruct (stopped_step_decreases _ _ _ _ Hstopped Ha) as [Hlt Hst1].
        destruct (phil_step_frame _ _ _ _ Ha) as (_ & Hm & _).
        assert (past_stop (main_ctl w1) = true) as Hpast1 by (by rewrite Hm).
        intros j th' Hj.
        destruct (IH w1 Hpast1 Hst1 Hrun j th' Hj) as (th1 & Hj1 & Hle1).
        destruct (stopped_step_pointwise _ _ _ _ Hstopped Ha j th1 Hj1)
          as (th & Hj0 & Hle).
        exists th. split; [done|lia].
Qed.

Lemma stopped_philosophers_make_bounded_steps_witness :
  exists (t : DiningTable) (w w' : world),
    setup (DiningTable_init 2 HIERARCHY 10) = Ok t
    /\ run_schedule
         [AMain; AMain; APhil 0 false; APhil 0 false; APhil 1 false;
          AMain; AMain; AMain; AMain; AMain]
         (initial_world t) = Some w
    /\ past_stop (main_ctl w) = true
    /\ run_schedule [APhil 0 false; AMain; APhil 1 true; APhil 0 false] w
         = Some w'
    /\ (3 + remaining_total w' <= remaining_total w)%nat
    /\ (remaining_total w <= 20)%nat
    /\ Forall stopped (threads w').
Proof.
  eexists _, _, _. split; [apply setup_spec|]. run_to_world.
  split; [reflexivity|].
  match goal with
  | |- run_schedule ?sched ?w0 = Some ?w /\ _ =>
      assert (run_schedule sched w0 = Some w) as Hrun2
        by (vm_compute; reflexivity)
  end.
  split; [exact Hrun2|].
  destruct (stopped_philosophers_make_bounded_steps 2 HIERARCHY 10 _ _ _ _
              (setup_spec 2 HIERARCHY 10) Hreach eq_refl Hrun2)
    as (Hle & Hb & Hst & _).
  split; [exact Hle|]. split; [exact Hb|exact Hst].
Defined.

(** ** Runs under the two solutions end without deadlock *)

Lemma solution_can_step (n : Z) (s : Strategy) (d : Z) (t : DiningTable)
    (w : world) (i : nat) (th : thread) :
  2 <= n -> s <> DEADLOCK ->
  setup (DiningTable_init n s d) = Ok t ->
  reachable t w ->
  threads w !! i = Some th -> is_alive th = true ->
  can_step w.
Proof.
  intros Hn Hs Ht Hw Hi Halive. destruct s; [done| |].
  - pose proof (hierarchy_inv_reachable n d t w Hn Ht Hw) as Hinv.
    apply (hierarchy_progress n w Hinv (Z.to_nat n) i th Hi Halive).
    intros f rest Hctl. destruct Hinv as (Hok & _ & _).
    destruct (Hok i th Hi) as (_ & _ & Hwb). rewrite Hctl in Hwb.
    destruct Hwb as [[[Hf _] _] _]. lia.
  - eapply (ranked_no_deadlock asym_rank 0 2 n); eauto.
    + apply asym_rank_range.
    + apply asym_rank_range.
    + by eapply asymmetric_inv_reachable.
Qed.

Lemma not_alive_finished (n : Z) (s : Strategy) (d : Z) (t : DiningTable)
    (w : world) :
  setup (DiningTable_init n s d) = Ok t ->
  reachable t w ->
  past_stop (main_ctl w) = true ->
  Forall (fun th => is_alive th = false) (threads w) ->
  Forall (fun th => ctl th = Finished) (threads w).
Proof.
  intros Ht Hw Hpast Hall.
  destruct (stop_signal_reaches_every_philosopher_aux _ _ _ _ _ Ht Hw Hpast)
    as [Hst _].
  pose proof (basic_inv_reachable t w Hw) as (Hok & _ & _).
  apply Forall_lookup. intros i th Hi.
  rewrite Forall_lookup in Hall, Hst.
  specialize (Hall i th Hi). specialize (Hst i th Hi).
  destruct (Hok i th Hi) as (_ & _ & Hwb).
  unfold is_alive in Hall. unfold started in Hst.
  destruct (ctl th); try done.
Qed.

Lemma remaining_le_total (l : list thread) (i : nat) (th : thread) :
  l !! i = Some th -> (remaining th <= sum_list (remaining <$> l))%nat.
Proof.
  revert i. induction l as [|x l IH]; intros [|i] Hi; try discriminate; csimpl.
  - injection Hi as ->. lia.
  - specialize (IH i Hi). lia.
Qed.

Lemma alive_or_all_dead (l : list thread) :
  Forall (fun th => is_alive th = false) l \/
  exists i th, l !! i = Some th /\ is_alive th = true.
Proof.
  induction l as [|x l [IH|(i & th & Hi & Hal)]].
  - left. constructor.
  - destruct (is_alive x) eqn:Hx.
    + right. by exists 0%nat, x.
    + left. by constructor.
  - right. by exists (S i), th.
Qed.

Lemma run_to_completion (n : Z) (s : Strategy) (d : Z) (t : DiningTable) :
  2 <= n -> s <> DEADLOCK ->
  setup (DiningTable_init n s d) = Ok t ->
  forall (k : nat) (w : world),
    reachable t w -> Forall stopped (threads w) ->
    (remaining_total w <= k)%nat ->
    exists sched w',
      Forall (fun a => phil_action a = true) sched
      /\ (length sched <= k)%nat
      /\ run_schedule sched w = Some w'
      /\ Forall (fun th => is_alive th = false) (threads w').
Proof.
  intros Hn Hs Ht. induction k as [|k IH]; intros w Hw Hst Hk.
  - exists [], w. repeat split; [constructor|simpl; lia|].
    unfold remaining_total in Hk. apply Forall_lookup. intros i th Hi.
    assert (remaining th = 0)%nat as Hr
      by (pose proof (remaining_le_total _ _ _ Hi); lia).
    unfold remaining in Hr. unfold is_alive. destruct (ctl th); done.
  - destruct (alive_or_all_dead (threads w)) as [Hall|(i & th & Hi & Halive)].
    + exists [], w. repeat split; [constructor|simpl; lia|done].
    + destruct (solution_can_step n s d t w i th Hn Hs Ht Hw Hi Halive)
        as (j & time_up & w1 & Hstep).
      destruct (stopped_step_decreases _ _ _ _ Hst Hstep) as [Hlt Hst1].
      assert (reachable t w1) as Hw1
        by (eapply rtc_r; [exact Hw|by eapply step_phil]).
      destruct (IH w1 Hw1 Hst1 ltac:(lia)) as (sched & w' & Hp & Hl & Hr & Hf).
      exists (APhil j time_up :: sched), w'. repeat split; try done.
      * by constructor.
      * simpl. lia.
      * simpl. by rewrite Hstep.
Qed.

(** Under the hierarchy and the asymmetric strategy, with at least two
    philosophers: no reachable state is stuck unless every philosopher
    thread has terminated, and once the stop signal has been given the
    philosophers can be run to completion in at most [10 * n] steps, after
    which [report_results] finds no blocked philosopher and reports no
    deadlock. *)
Theorem solutions_end_without_deadlock (n : Z) (s : Strategy) (d : Z)
    (t : DiningTable) (w : world) :
  2 <= n -> s <> DEADLOCK ->
  setup (DiningTable_init n s d) = Ok t ->
  reachable t w ->
  (can_step w \/ Forall (fun th => is_alive th = false) (threads w))
  /\ (past_stop (main_ctl w) = true ->
      exists sched w',
        Forall (fun a => phil_action a = true) sched
        /\ (length sched <= 10 * Z.to_nat n)%nat
        /\ run_schedule sched w = Some w'
        /\ Forall (fun th => ctl th = Finished) (threads w')
        /\ alive_count (report_results (threads w')) = 0
        /\ deadlock_detected (report_results (threads w')) = false).
Proof.
  intros Hn Hs Ht Hw. split.
  - destruct (alive_or_all_dead (threads w)) as [Hall|(i & th & Hi & Halive)];
      [by right|left].
    by apply (solution_can_step n s d t w i th).
  - intros Hpast.
    destruct (stop_signal_reaches_every_philosopher_aux _ _ _ _ _ Ht Hw Hpast)
      as [_ Hst].
    pose proof (remaining_total_bound w (in_cycle_reachable t w Hw)) as Hb.
    destruct (frame_inv_reachable t w Hw) as [Hlen _].
    assert (length (philosophers t) = Z.to_nat n) as Hn'.
    { pose proof Ht as Ht'. rewrite setup_spec in Ht'. injection Ht' as <-.
      simpl. by rewrite length_map, length_range. }
    destruct (run_to_completion n s d t Hn Hs Ht (10 * Z.to_nat n) w Hw Hst
                ltac:(lia))
      as (sched & w' & Hp & Hl & Hr & Hf).
    exists sched, w'. split; [done|]. split; [done|]. split; [done|].
    assert (reachable t w') as Hw' by (by eapply run_schedule_reachable).
    assert (past_stop (main_ctl w') = true) as Hpast'.
    { clear Hw Hw' Hb Hlen Hst Hl Hf. revert w Hpast Hr.
      induction Hp as [|a sched Ha _ IH]; intros w Hpast Hr.
      - by injection Hr as <-.
      - simpl in Hr. destruct a as [|i time_up]; [done|]. simpl in Hr.
        destruct (phil_step i time_up w) as [w1|] eqn:Hstep; [|done].
        apply (IH w1); [|done].
        destruct (phil_step_frame _ _ _ _ Hstep) as (_ & Hm & _).
        by rewrite Hm. }
    split; [by eapply not_alive_finished|].
    destruct (alive_filter_spec (threads w')) as [Hnil _].
    apply Hnil in Hf. unfold report_results. simpl. by rewrite Hf.
Qed.

Lemma solutions_end_without_deadlock_witness :
  exists (t : DiningTable) (w : world),
    setup (DiningTable_init 2 ASYMMETRIC 10) = Ok t
    /\ run_schedule
         [AMain; AMain; APhil 0 false; APhil 0 false; APhil 0 false;
          APhil 1 false; APhil 1 false;
          AMain; AMain; AMain; AMain; AMain]
         (initial_world t) = Some w
    /\ past_stop (main_ctl w) = true
    /\ exists sched w',
         (length sched <= 20)%nat
         /\ run_schedule sched w = Some w'
         /\ Forall (fun th => ctl th = Finished) (threads w')
         /\ deadlock_detected (report_results (threads w')) = false.
Proof.
  eexists _, _. split; [apply setup_spec|]. run_to_world.
  split; [reflexivity|].
  destruct (proj2 (solutions_end_without_deadlock 2 ASYMMETRIC 10 _ _
                     ltac:(lia) ltac:(discriminate)
                     (setup_spec 2 ASYMMETRIC 10) Hreach) eq_refl)
    as (sched & w' & _ & Hl & Hr & Hf & _ & Hd).
  exists sched, w'. split; [exact Hl|]. split; [exact Hr|].
  split; [exact Hf|exact Hd].
Defined.

(** ** The philosophers of a run *)

Lemma setup_lookup (n : Z) (s : Strategy) (d : Z) (t : DiningTable)
    (i : nat) (p : Philosopher) :
  setup (DiningTable_init n s d) = Ok t ->
  philosophers t !! i = Some p ->
  Z.of_nat i < n /\
  p = Philosopher_init (Z.of_nat i) (mkFork (Z.of_nat i) i)
        (mkFork ((Z.of_nat i + 1) mod n)
           (Z.to_nat ((Z.of_nat i + 1) mod n))) s d.
Proof.
  rewrite setup_spec. intros [= <-]. simpl. intros Hp.
  pose proof (lookup_lt_Some _ _ _ Hp) as Hlt.
  rewrite length_map, length_range in Hlt.
  split; [lia|].
  rewrite list_lookup_fmap in Hp.
  replace i with (Z.to_nat (Z.of_nat i)) in Hp at 1 by lia.
  rewrite lookup_range in Hp by lia. simpl in Hp.
  injection Hp as <-. by rewrite Nat2Z.id.
Qed.

Lemma thread_static (n : Z) (s : Strategy) (d : Z) (t : DiningTable)
    (w : world) (i : nat) (th : thread) :
  setup (DiningTable_init n s d) = Ok t ->
  reachable t w ->
  threads w !! i = Some th ->
  Z.of_nat i < n
  /\ phil_id (self th) = Z.of_nat i
  /\ left_fork (self th) = mkFork (Z.of_nat i) i
  /\ right_fork (self th) =
       mkFork ((Z.of_nat i + 1) mod n) (Z.to_nat ((Z.of_nat i + 1) mod n))
  /\ strategy (self th) = s
  /\ duration (self th) = d
  /\ 0 <= meals_eaten (self th).
Proof.
  intros Ht Hw Hi. destruct (frame_inv_reachable t w Hw) as [Hlen Hfr].
  destruct (philosophers t !! i) as [p|] eqn:Hp.
  - destruct (Hfr i th p Hi Hp) as [(H1 & H2 & H3 & H4 & H5) Hm].
    destruct (setup_lookup _ _ _ _ _ _ Ht Hp) as [Hlt ->].
    simpl in *. repeat split; try done.
  - apply lookup_ge_None in Hp. apply lookup_lt_Some in Hi. lia.
Qed.

(** A run keeps the philosophers the table was set up with: there are as
    many threads as philosophers, thread [i] has id [i], left fork [i],
    right fork [(i+1) mod n], the strategy and the duration of the table,
    and a meal count that is never negative. *)
Theorem run_keeps_philosophers (n : Z) (s : Strategy) (d : Z)
    (t : DiningTable) (w : world) :
  setup (DiningTable_init n s d) = Ok t ->
  reachable t w ->
  length (threads w) = Z.to_nat n
  /\ sim_duration w = d
  /\ 0 <= total_meals (report_results (threads w))
  /\ forall i th, threads w !! i = Some th ->
       phil_id (self th) = Z.of_nat i
       /\ fork_id (left_fork (self th)) = Z.of_nat i
       /\ fork_id (right_fork (self th)) = (Z.of_nat i + 1) mod n
       /\ strategy (self th) = s
       /\ duration (self th) = d
       /\ 0 <= meals_eaten (self th).
Proof.
  intros Ht Hw. split; [|split; [|split]].
  - destruct (frame_inv_reachable t w Hw) as [Hlen _]. rewrite Hlen.
    pose proof Ht as Ht'. rewrite setup_spec in Ht'. injection Ht' as <-.
    simpl. by rewrite length_map, length_range.
  - by destruct (start_inv_reachable _ _ _ _ _ Ht Hw) as [? _].
  - unfold report_results. simpl.
    assert (forall j tj, threads w !! j = Some tj -> 0 <= meals_eaten (self tj))
      as Hall.
    { intros j tj Hj. by destruct (thread_static _ _ _ _ _ _ _ Ht Hw Hj)
        as (_ & _ & _ & _ & _ & _ & ?). }
    induction (threads w) as [|x l IH]; simpl; [lia|].
    pose proof (Hall 0%nat x eq_refl).
    assert (0 <= foldr Z.add 0 (map (fun t0 => meals_eaten (self t0)) l));
      [|lia].
    apply IH. intros j tj Hj. by apply (Hall (S j) tj).
  - intros i th Hi.
    destruct (thread_static _ _ _ _ _ _ _ Ht Hw Hi)
      as (_ & H1 & H2 & H3 & H4 & H5 & H6).
    rewrite H2, H3. by repeat split.
Qed.

Lemma run_keeps_philosophers_witness :
  exists (t : DiningTable) (w : world),
    setup (DiningTable_init 3 DEADLOCK 10) = Ok t
    /\ run_schedule
         [AMain; AMain; AMain; APhil 2 false; APhil 2 false; APhil 2 false;
          AMain; AMain; AMain]
         (initial_world t) = Some w
    /\ length (threads w) = 3%nat
    /\ sim_duration w = 10.
Proof.
  eexists _, _. split; [apply setup_spec|]. run_to_world.
  destruct (run_keeps_philosophers 3 DEADLOCK 10 _ _
              (setup_spec 3 DEADLOCK 10) Hreach) as (Hlen & Hd & _).
  split; [exact Hlen|exact Hd].
Defined.

(** ** Eating *)

Lemma eating_position (th : thread) :
  in_cycle th -> eating th = true ->
  exists first second,
    held th = [second; first]
    /\ ((first = left_fork (self th) /\ second = right_fork (self th)) \/
        (first = right_fork (self th) /\ second = left_fork (self th)) \/
        (first = second)).
Proof.
  unfold in_cycle, eating. intros Hin Heat.
  destruct (ctl th) as [| |rest| |]; try discriminate.
  destruct Hin as (pre & Hpre & Hheld).
  destruct (cycle_shape (self th)) as (a & b & pause & Hc & Hp & Hab).
  assert (held th = [b; a]) as Hh.
  { rewrite Hheld. rewrite Hc in Hpre. clear Hheld Hc Hab.
    destruct rest as [|[ms| | |] rest]; try discriminate.
    - destruct rest as [|[| | |] rest]; try discriminate.
      destruct Hp as [-> | ->]; simpl in Hpre;
        do 9 (destruct pre as [|? pre]; simplify_eq/=; try done).
    - destruct Hp as [-> | ->]; simpl in Hpre;
        do 9 (destruct pre as [|? pre]; simplify_eq/=; try done). }
  exists a, b. split; [done|].
  destruct Hab as [?|[?|(-> & -> & _)]]; auto.
Qed.

Lemma eating_holds (n : Z) (s : Strategy) (d : Z) (t : DiningTable)
    (w : world) (i : nat) (th : thread) :
  setup (DiningTable_init n s d) = Ok t ->
  reachable t w ->
  threads w !! i = Some th ->
  eating th = true ->
  (held th = [right_fork (self th); left_fork (self th)] \/
   held th = [left_fork (self th); right_fork (self th)])
  /\ fork_lock (left_fork (self th)) <> fork_lock (right_fork (self th)).
Proof.
  intros Ht Hw Hi Heat.
  pose proof (in_cycle_reachable t w Hw) as Hin.
  rewrite Forall_lookup in Hin. specialize (Hin i th Hi).
  destruct (eating_position th Hin Heat) as (a & b & Hh & Hab).
  destruct (table_inv_reachable _ _ _ _ _ Ht Hw) as (Hok & _ & _).
  destruct (Hok i th Hi) as (_ & [Hnd _] & _).
  rewrite Hh in Hnd. simpl in Hnd.
  apply NoDup_cons in Hnd as [Hne _]. rewrite list_elem_of_singleton in Hne.
  rewrite Hh. destruct Hab as [[-> ->]|[[-> ->]| -> ]]; auto.
  by destruct Hne.
Qed.

(** A philosopher that is eating holds both its forks, whose locks are
    taken, and neither of its neighbours is eating; eating is impossible at
    a table for one. *)
Theorem eating_excludes_neighbours (n : Z) (s : Strategy) (d : Z)
    (t : DiningTable) (w : world) (i : nat) (th : thread) :
  setup (DiningTable_init n s d) = Ok t ->
  reachable t w ->
  threads w !! i = Some th ->
  eating th = true ->
  2 <= n
  /\ (held th = [right_fork (self th); left_fork (self th)] \/
      held th = [left_fork (self th); right_fork (self th)])
  /\ fork_lock (left_fork (self th)) ∈ locked w
  /\ fork_lock (right_fork (self th)) ∈ locked w
  /\ forall j tj,
       threads w !! j = Some tj ->
       Z.of_nat j = (Z.of_nat i + 1) mod n \/
       Z.of_nat i = (Z.of_nat j + 1) mod n ->
       eating tj = false.
Proof.
  intros Ht Hw Hi Heat.
  destruct (eating_holds _ _ _ _ _ _ _ Ht Hw Hi Heat) as [Hh Hne].
  destruct (thread_static _ _ _ _ _ _ _ Ht Hw Hi)
    as (Hlt & _ & Hl & Hr & _).
  destruct (table_inv_reachable _ _ _ _ _ Ht Hw) as (Hok & Hlk & Hmx).
  assert (holds th (fork_lock (left_fork (self th))) /\
          holds th (fork_lock (right_fork (self th)))) as [Hhl Hhr].
  { unfold holds. destruct Hh as [-> | ->]; simpl; split;
      rewrite !elem_of_cons; auto. }
  assert (0 <= (Z.of_nat i + 1) mod n < n) as Hm
    by (apply Z.mod_pos_bound; lia).
  rewrite Hl, Hr in Hne. simpl in Hne.
  assert (2 <= n) as Hn.
  { destruct (decide (n = 1)) as [->|]; [|lia].
    rewrite Z.mod_1_r in Hne. lia. }
  split; [done|]. split; [done|].
  split; [|split].
  - apply Hlk. by exists i, th.
  - apply Hlk. by exists i, th.
  - intros j tj Hj Hadj. destruct (eating tj) eqn:Hej; [|done].
    destruct (eating_holds _ _ _ _ _ _ _ Ht Hw Hj Hej) as [Hhj _].
    destruct (thread_static _ _ _ _ _ _ _ Ht Hw Hj)
      as (Hltj & _ & Hlj & Hrj & _).
    assert (holds tj (fork_lock (left_fork (self tj))) /\
            holds tj (fork_lock (right_fork (self tj)))) as [Hjl Hjr].
    { unfold holds. destruct Hhj as [-> | ->]; simpl; split;
        rewrite !elem_of_cons; auto. }
    rewrite Hl in Hhl. rewrite Hr in Hhr. rewrite Hlj in Hjl.
    rewrite Hrj in Hjr. simpl in *.
    assert (i = j) as <-.
    { destruct Hadj as [Ha|Ha].
      - apply (Hmx i j th tj j Hi Hj); [|done].
        replace j with (Z.to_nat ((Z.of_nat i + 1) mod n))
          by (rewrite <- Ha; lia).
        done.
      - apply (Hmx i j th tj i Hi Hj); [done|].
        replace i with (Z.to_nat ((Z.of_nat j + 1) mod n))
          by (rewrite <- Ha; lia).
        done. }
    destruct Hadj as [Ha|Ha]; rewrite <- Ha in Hne; lia.
Qed.

Lemma eating_excludes_neighbours_witness :
  exists (t : DiningTable) (w : world) (th : thread),
    setup (DiningTable_init 3 HIERARCHY 10) = Ok t
    /\ run_schedule
         [AMain; AMain; AMain;
          APhil 0 false; APhil 0 false; APhil 0 false; APhil 0 false;
          APhil 1 false; APhil 1 false]
         (initial_world t) = Some w
    /\ threads w !! 0%nat = Some th
    /\ eating th = true
    /\ (forall j tj, threads w !! j = Some tj ->
          Z.of_nat j = (0 + 1) mod 3 \/ 0 = (Z.of_nat j + 1) mod 3 ->
          eating tj = false).
Proof.
  eexists _, _, _. split; [apply setup_spec|]. run_to_world.
  split; [reflexivity|]. split; [reflexivity|].
  exact (proj2 (proj2 (proj2 (proj2
           (eating_excludes_neighbours 3 HIERARCHY 10 _ _ 0%nat _
              (setup_spec 3 HIERARCHY 10) Hreach eq_refl eq_refl))))).
Defined.

(** With one philosopher no meal is ever eaten, under any strategy: the
    philosopher takes its only fork and then waits for it. *)
Theorem single_philosopher_never_eats (s : Strategy) (d : Z)
    (t : DiningTable) (w : world) :
  setup (DiningTable_init 1 s d) = Ok t ->
  reachable t w ->
  Forall (fun th => meals_eaten (self th) = 0 /\ eating th = false)
    (threads w)
  /\ total_meals (report_results (threads w)) = 0.
Proof.
  intros Ht Hw.
  assert (forall w0, reachable t w0 ->
            Forall (fun th => eating th = false) (threads w0)) as Hne.
  { intros w0 Hw0. apply Forall_lookup. intros i th Hi.
    destruct (eating th) eqn:Heat; [|done].
    destruct (eating_holds _ _ _ _ _ _ _ Ht Hw0 Hi Heat) as [_ Hneq].
    destruct (thread_static _ _ _ _ _ _ _ Ht Hw0 Hi) as (Hlt & _ & Hl & Hr & _).
    rewrite Hl, Hr in Hneq. simpl in Hneq. rewrite Z.mod_1_r in Hneq. lia. }
  assert (Forall (fun th => meals_eaten (self th) = 0) (threads w)) as Hm.
  { revert w Hw.
    apply (reachable_ind t
             (fun w => Forall (fun th => meals_eaten (self th) = 0) (threads w))).
    - destruct (setup_running _ _ _ _ Ht) as [_ Hinit]. simpl.
      apply Forall_fmap. eapply Forall_impl; [exact Hinit|]. by intros p [_ ?].
    - intros w0 w1 _ Hall Hstep.
      destruct (main_step_frame _ _ Hstep) as (_ & _ & _ & Hth).
      apply Forall_lookup. intros j th' Hj.
      destruct (Hth j th' Hj) as (th & Hj0 & _ & _ & Hmeals & _).
      rewrite Forall_lookup in Hall. rewrite Hmeals. by apply (Hall j th).
    - intros w0 w1 i time_up Hw0 Hall Hstep.
      specialize (Hne w0 Hw0). revert Hstep. unfold phil_step.
      destruct (threads w0 !! i) as [th|] eqn:Hi; [|discriminate].
      rewrite Forall_lookup in Hall, Hne.
      pose proof (Hall i th Hi) as Hz. pose proof (Hne i th Hi) as Hn.
      assert (forall th' l', meals_eaten (self th') = 0 ->
                Forall (fun th => meals_eaten (self th) = 0)
                  (threads (set_locked (set_thread w0 i th') l'))) as Hset.
      { intros th' l' Hz'. simpl. apply Forall_insert; [|done].
        by apply Forall_lookup. }
      unfold eating in Hn.
      destruct (ctl th) as [| |[|ins rest]| |]; try discriminate.
      + destruct (loop_test (self th) time_up); intros [= <-];
          by apply (Hset _ (locked w0)).
      + intros [= <-]. by apply (Hset _ (locked w0)).
      + unfold exec_instr. destruct ins as [ms| |f|f]; try discriminate.
        * intros [= <-]. by apply Hset.
        * destruct (decide (fork_lock f ∈ locked w0)); [discriminate|].
          intros [= <-]. by apply Hset.
        * destruct (decide (fork_lock f ∈ locked w0)); intros [= <-];
            by apply Hset.
    - by intros w0 e _ Hall _ _. }
  split.
  - specialize (Hne w Hw). apply Forall_lookup. intros i th Hi.
    rewrite Forall_lookup in Hm, Hne. split; eauto.
  - unfold report_results. simpl. clear Hw Hne.
    induction Hm as [|th l Hz _ IH]; simpl; [done|]. lia.
Qed.

Lemma single_philosopher_never_eats_witness :
  exists (t : DiningTable) (w : world),
    setup (DiningTable_init 1 ASYMMETRIC 10) = Ok t
    /\ run_schedule [AMain; APhil 0 false; APhil 0 false; APhil 0 false]
         (initial_world t) = Some w
    /\ phil_step 0 false w = None
    /\ total_meals (report_results (threads w)) = 0.
Proof.
  eexists _, _. split; [apply setup_spec|]. run_to_world.
  split; [reflexivity|].
  exact (proj2 (single_philosopher_never_eats ASYMMETRIC 10 _ _
                  (setup_spec 1 ASYMMETRIC 10) Hreach)).
Defined.

(** ** Circular wait *)

Lemma blocked_no_step (w : world) (i : nat) (th : thread) (time_up : bool) :
  threads w !! i = Some th -> blocked w th -> phil_step i time_up w = None.
Proof.
  intros Hi (f & rest & Hctl & Hin). unfold phil_step.
  rewrite Hi, Hctl. simpl. by destruct (decide (fork_lock f ∈ locked w)).
Qed.

Lemma blocked_alive (w : world) (th : thread) :
  blocked w th -> is_alive th = true.
Proof. intros (f & rest & Hctl & _). unfold is_alive. by rewrite Hctl. Qed.

Lemma main_step_report (w w' : world) :
  main_step w = Some w' ->
  report w' = report w \/ report w' = Some (report_results (threads w)).
Proof.
  unfold main_step. destruct (main_ctl w) as [k| |k|k| | |]; try discriminate.
  - destruct (threads w !! k) as [t|]; [|intros [= <-]; by left].
    destruct (ctl t); intros [= <-]; by left.
  - destruct (sleep_error (sim_duration w)); intros [= <-]; by left.
  - destruct (threads w !! k); intros [= <-]; by left.
  - destruct (threads w !! k); intros [= <-]; by left.
  - intros [= <-]. by right.
Qed.

Lemma all_blocked_report (w : world) :
  Forall (blocked w) (threads w) ->
  alive_count (report_results (threads w)) = Z.of_nat (length (threads w))
  /\ deadlock_detected (report_results (threads w))
       = (0 <? Z.of_nat (length (threads w))).
Proof.
  intros Hall.
  assert (Forall (fun th => is_alive th = true) (threads w)) as Halive
    by (eapply Forall_impl; [exact Hall|apply blocked_alive]).
  apply (alive_filter_spec (threads w)) in Halive.
  unfold report_results. simpl. by rewrite Halive.
Qed.

(** A circular wait is permanent.  From a state in which every philosopher
    thread waits for a lock that is taken, no philosopher thread ever moves
    again: stopping does not wake a waiting thread, every later report
    counts all philosophers as blocked and reports deadlock, and the process
    never gets an exit status. *)
Theorem circular_wait_is_permanent (w w' : world) :
  threads w <> [] ->
  Forall (blocked w) (threads w) ->
  rtc step w w' ->
  Forall (blocked w') (threads w')
  /\ locked w' = locked w
  /\ ~ can_step w'
  /\ (report w' = report w \/
      exists r, report w' = Some r
        /\ alive_count r = Z.of_nat (length (threads w))
        /\ deadlock_detected r = true)
  /\ exit_status w' = None.
Proof.
  intros Hne Hall Hsteps.
  assert (Forall (blocked w') (threads w')
          /\ locked w' = locked w
          /\ length (threads w') = length (threads w)
          /\ (report w' = report w \/
              exists r, report w' = Some r
                /\ alive_count r = Z.of_nat (length (threads w))
                /\ deadlock_detected r = true)) as (Hb & Hl & Hlen & Hrep).
  { eapply (rtc_ind_r
              (fun w0 => Forall (blocked w0) (threads w0)
                 /\ locked w0 = locked w
                 /\ length (threads w0) = length (threads w)
                 /\ (report w0 = report w \/
                     exists r, report w0 = Some r
                       /\ alive_count r = Z.of_nat (length (threads w))
                       /\ deadlock_detected r = true)));
      [| |exact Hsteps].
    - repeat split; auto.
    - intros w0 w1 _ Hstep (Hb0 & Hl0 & Hlen0 & Hrep0).
      destruct Hstep as [w0 w1 Hm|i time_up w0 w1 Hp|e w0 _ _]; [| |done].
      + destruct (main_step_frame _ _ Hm) as (_ & Hl1 & Hlen1 & Hth).
        split; [|split; [congruence|split; [congruence|]]].
        * apply Forall_lookup. intros j th' Hj.
          destruct (Hth j th' Hj) as (th & Hj0 & _ & _ & _ & Hctl & _).
          rewrite Forall_lookup in Hb0.
          destruct (Hb0 j th Hj0) as (f & rest & Hc & Hin).
          exists f, rest. rewrite Hl1. split; [|done].
          destruct Hctl as [->|[Hns _]]; [done|congruence].
        * destruct (main_step_report _ _ Hm) as [Hr|Hr].
          -- rewrite Hr. exact Hrep0.
          -- right. eexists. split; [exact Hr|].
             destruct (all_blocked_report w0 Hb0) as [Ha Hd].
             rewrite Ha, Hd, Hlen0. split; [done|].
             apply Z.ltb_lt. destruct (threads w); [done|simpl; lia].
      + destruct (phil_step_frame _ _ _ _ Hp) as (_ & _ & _ & th & _ & Hi & _).
        rewrite Forall_lookup in Hb0.
        by rewrite (blocked_no_step w0 i th time_up Hi (Hb0 i th Hi)) in Hp. }
  split; [done|]. split; [done|]. split; [|split; [done|]].
  - intros (i & time_up & w1 & Hp).
    destruct (phil_step_frame _ _ _ _ Hp) as (_ & _ & _ & th & _ & Hi & _).
    rewrite Forall_lookup in Hb.
    by rewrite (blocked_no_step w' i th time_up Hi (Hb i th Hi)) in Hp.
  - unfold exit_status.
    destruct (threads w') as [|th l] eqn:Hth;
      [destruct (threads w); [done|discriminate]|].
    apply Forall_cons in Hb as [Hb _]. simpl.
    by rewrite (blocked_alive _ _ Hb).
Qed.

Lemma run_schedule_rtc (sched : list action) (w w' : world) :
  run_schedule sched w = Some w' -> rtc step w w'.
Proof.
  revert w. induction sched as [|a sched IH]; intros w; simpl.
  - intros [= <-]. apply rtc_refl.
  - destruct (do_action a w) as [w1|] eqn:Ha; [|discriminate].
    intros Hr. eapply rtc_l; [|by apply IH].
    destruct a; simpl in Ha; [by apply step_main|by eapply step_phil].
Qed.

Lemma circular_wait_is_permanent_witness :
  exists (t : DiningTable) (w w' : world) (r : Report),
    setup (DiningTable_init 2 DEADLOCK 10) = Ok t
    /\ run_schedule
         [AMain; AMain;
          APhil 0 false; APhil 0 false; APhil 0 false; APhil 0 false;
          APhil 1 false; APhil 1 false; APhil 1 false; APhil 1 false]
         (initial_world t) = Some w
    /\ run_schedule
         [AMain; AMain; AMain; AMain; AMain; AMain; AMain; AMain; AMain]
         w = Some w'
    /\ report w' = Some r
    /\ alive_count r = 2
    /\ deadlock_detected r = true
    /\ exit_status w' = None.
Proof.
  eexists _, _, _, _. split; [apply setup_spec|]. run_to_world.
  match goal with
  | |- run_schedule ?sched ?w0 = Some ?w /\ _ =>
      assert (run_schedule sched w0 = Some w) as Hrun2
        by (vm_compute; reflexivity)
  end.
  split; [exact Hrun2|].
  match type of Hrun2 with
  | run_schedule _ ?w0 = Some ?w1 =>
      destruct (circular_wait_is_permanent w0 w1) as (_ & _ & _ & Hrep & Hex)
  end.
  - discriminate.
  - repeat constructor; eexists _, _; (split; [reflexivity|]);
      apply (bool_decide_unpack _); vm_compute; reflexivity.
  - by eapply run_schedule_rtc.
  - split; [reflexivity|]. split; [reflexivity|]. split; [reflexivity|].
    exact Hex.
Defined.

(** ** The deadlock strategy deadlocks *)

Lemma phil_step_loop_enter (w : world) (i : nat) (th : thread) :
  threads w !! i = Some th -> ctl th = LoopTop -> running (self th) = true ->
  0 < duration (self th) ->
  phil_step i false w
    = Some (set_thread w i (mkThread (self th) (Body (cycle (self th)))
                              (held th))).
Proof.
  intros Hi Hctl Hrun Hd. unfold phil_step, loop_test.
  rewrite Hi, Hctl, Hrun. by destruct (Z.leb_spec (duration (self th)) 0); [lia|].
Qed.

(** With a duration of zero or less a philosopher leaves its loop at the
    first test, without an iteration. *)
Lemma no_iteration_without_duration (w : world) (i : nat) (th : thread)
    (time_up : bool) :
  threads w !! i = Some th -> ctl th = LoopTop -> duration (self th) <= 0 ->
  phil_step i time_up w
    = Some (set_thread w i (mkThread (self th) Finished (held th))).
Proof.
  intros Hi Hctl Hd. unfold phil_step, loop_test. rewrite Hi, Hctl.
  destruct (Z.leb_spec (duration (self th)) 0); [|lia].
  by rewrite orb_true_r, andb_false_r.
Qed.

Lemma phil_step_exec (w : world) (i : nat) (th th' : thread) (ins : instr)
    (rest : list instr) (l' : gset nat) (time_up : bool) :
  threads w !! i = Some th -> ctl th = Body (ins :: rest) ->
  exec_instr ins rest th (locked w) = Some (th', l') ->
  phil_step i time_up w = Some (set_locked (set_thread w i th') l').
Proof.
  intros Hi Hctl Hex. unfold phil_step. by rewrite Hi, Hctl, Hex.
Qed.

Lemma left_taken_step (n d : Z) (k : nat) (w : world) :
  0 < d ->
  left_taken n d k w -> (k < Z.to_nat n)%nat ->
  exists w', rtc step w w' /\ left_taken n d (S k) w'.
Proof.
  intros Hd (Hmain & Hlk & Hlen & Hth) Hk.
  destruct (lookup_lt_is_Some_2 (threads w) k) as [th0 Hk0]; [lia|].
  destruct (Hth k th0 Hk0) as (Hself & _ & Hge).
  destruct (Hge (le_n _)) as [Hctl Hheld].
  set (p := deadlock_phil n d (Z.of_nat k)) in *.
  set (L := left_fork p). set (R := right_fork p).
  set (tail4 := [Acquire R; Sleep 200; IncMeals; Release R; Release L]).
  assert (k < length (threads w))%nat as Hlt by lia.
  set (w1 := set_main (set_thread w k (mkThread p LoopTop [])) (MStart (S k))).
  assert (main_step w = Some w1) as H1.
  { unfold main_step. by rewrite Hmain, Hk0, Hctl, Hself, Hheld. }
  set (w2 := set_thread w1 k (mkThread p (Body (cycle p)) [])).
  assert (phil_step k false w1 = Some w2) as H2.
  { apply (phil_step_loop_enter w1 k (mkThread p LoopTop [])).
    - simpl. by apply list_lookup_insert_eq.
    - done.
    - done.
    - exact Hd. }
  set (w3 := set_locked
               (set_thread w2 k
                  (mkThread p (Body (Acquire L :: Sleep 500 :: tail4)) []))
               (locked w2)).
  assert (phil_step k false w2 = Some w3) as H3.
  { eapply (phil_step_exec w2 k (mkThread p (Body (cycle p)) [])); try done.
    simpl. apply list_lookup_insert_eq. by rewrite length_insert. }
  assert (fork_lock L ∉ locked w) as Hfree.
  { rewrite Hlk. simpl. lia. }
  set (w4 := set_locked
               (set_thread w3 k (mkThread p (Body (Sleep 500 :: tail4)) [L]))
               ({[fork_lock L]} ∪ locked w3)).
  assert (phil_step k false w3 = Some w4) as H4.
  { apply (phil_step_exec w3 k
             (mkThread p (Body (Acquire L :: Sleep 500 :: tail4)) [])
             (mkThread p (Body (Sleep 500 :: tail4)) [L])
             (Acquire L) (Sleep 500 :: tail4) ({[fork_lock L]} ∪ locked w3)).
    - simpl. apply list_lookup_insert_eq. by rewrite !length_insert.
    - done.
    - unfold exec_instr. change (locked w3) with (locked w).
      destruct (decide (fork_lock L ∈ locked w)); [done|reflexivity]. }
  set (w5 := set_locked (set_thread w4 k (mkThread p (Body tail4) [L]))
               (locked w4)).
  assert (phil_step k false w4 = Some w5) as H5.
  { eapply (phil_step_exec w4 k (mkThread p (Body (Sleep 500 :: tail4)) [L]));
      try done.
    simpl. apply list_lookup_insert_eq. by rewrite !length_insert. }
  exists w5. split.
  - eapply rtc_l; [by apply step_main|].
    eapply rtc_l; [by eapply step_phil|].
    eapply rtc_l; [by eapply step_phil|].
    eapply rtc_l; [by eapply step_phil|].
    eapply rtc_l; [by eapply step_phil|]. apply rtc_refl.
  - split; [done|]. split; [|split].
    + intros a. simpl. rewrite elem_of_union, elem_of_singleton, Hlk.
      simpl. lia.
    + simpl. by rewrite !length_insert.
    + intros j th Hj. simpl in Hj. rewrite !list_insert_insert_eq in Hj.
      apply lookup_insert_inv in Hj as [[-> ->]|[Hne Hj]].
      * simpl. split; [done|]. split; [done|lia].
      * destruct (Hth j th Hj) as (Hs & Hlt' & Hge').
        split; [done|].
        split; [intros; apply Hlt'; lia|intros; apply Hge'; lia].
Qed.

Lemma left_taken_initial (n d : Z) (t : DiningTable) :
  setup (DiningTable_init n DEADLOCK d) = Ok t ->
  left_taken n d 0 (initial_world t).
Proof.
  intros Ht. split; [done|]. split; [|split].
  - intros a. simpl. rewrite elem_of_empty. lia.
  - simpl. rewrite length_map. pose proof Ht as Ht'.
    rewrite setup_spec in Ht'. injection Ht' as <-. simpl.
    by rewrite length_map, length_range.
  - intros j th Hj. simpl in Hj. rewrite list_lookup_fmap in Hj.
    destruct (philosophers t !! j) as [p|] eqn:Hp; [|discriminate].
    injection Hj as <-. simpl.
    destruct (setup_lookup _ _ _ _ _ _ Ht Hp) as [_ ->].
    split; [|split; [lia|done]].
    unfold deadlock_phil. by rewrite Nat2Z.id.
Qed.

Lemma left_taken_reachable (n d : Z) (t : DiningTable) (k : nat) :
  0 < d ->
  setup (DiningTable_init n DEADLOCK d) = Ok t ->
  (k <= Z.to_nat n)%nat ->
  exists w, reachable t w /\ left_taken n d k w.
Proof.
  intros Hd Ht. induction k as [|k IH]; intros Hk.
  - exists (initial_world t). split; [apply rtc_refl|].
    by apply left_taken_initial.
  - destruct IH as (w & Hw & Hlt); [lia|].
    destruct (left_taken_step n d k w Hd Hlt) as (w' & Hsteps & Hlt'); [lia|].
    exists w'. split; [|done]. unfold reachable. by etrans.
Qed.

(** For every number of philosophers and every positive duration the
    deadlock strategy has a run into a circular wait: every philosopher has
    been started, holds its left fork, has eaten nothing, and waits for its
    right fork, which its neighbour holds (or, alone at the table, it holds
    itself); no philosopher thread can move.  (With a duration of zero or
    less no philosopher enters its loop, see [no_iteration_without_duration].)
    *)
Theorem deadlock_strategy_reaches_circular_wait (n d : Z) :
  1 <= n ->
  0 < d ->
  exists (t : DiningTable) (w : world),
    setup (DiningTable_init n DEADLOCK d) = Ok t
    /\ reachable t w
    /\ length (threads w) = Z.to_nat n
    /\ Forall (blocked w) (threads w)
    /\ Forall (fun th => held th = [left_fork (self th)]
                 /\ meals_eaten (self th) = 0
                 /\ exists rest,
                      ctl th = Body (Acquire (right_fork (self th)) :: rest))
         (threads w)
    /\ ~ can_step w.
Proof.
  intros Hn Hd. eexists.
  destruct (left_taken_reachable n d _ (Z.to_nat n) Hd
              (setup_spec n DEADLOCK d))
    as (w & Hw & Hmain & Hlk & Hlen & Hth); [lia|].
  exists w. split; [apply setup_spec|]. split; [done|]. split; [done|].
  assert (Forall (blocked w) (threads w)) as Hb.
  { apply Forall_lookup. intros j th Hj.
    destruct (Hth j th Hj) as (Hs & Hlt & _).
    destruct Hlt as [Hctl _]; [apply lookup_lt_Some in Hj; lia|].
    eexists _, _. split; [exact Hctl|]. apply Hlk. simpl.
    pose proof (Z.mod_pos_bound (Z.of_nat j + 1) n). lia. }
  split; [done|]. split.
  - apply Forall_lookup. intros j th Hj.
    destruct (Hth j th Hj) as (Hs & Hlt & _).
    destruct Hlt as [Hctl Hheld]; [apply lookup_lt_Some in Hj; lia|].
    rewrite Hs, Hheld, Hctl. simpl. repeat split. eauto.
  - intros (i & time_up & w1 & Hp).
    destruct (phil_step_frame _ _ _ _ Hp) as (_ & _ & _ & th & _ & Hi & _).
    rewrite Forall_lookup in Hb.
    by rewrite (blocked_no_step w i th time_up Hi (Hb i th Hi)) in Hp.
Qed.

Lemma deadlock_strategy_reaches_circular_wait_witness :
  1 <= 5 /\ 0 < 10 /\
  exists (t : DiningTable) (w : world),
    setup (DiningTable_init 5 DEADLOCK 10) = Ok t
    /\ reachable t w
    /\ length (threads w) = 5%nat
    /\ ~ can_step w.
Proof.
  split; [lia|]. split; [lia|].
  destruct (deadlock_strategy_reaches_circular_wait 5 10 ltac:(lia)
              ltac:(lia))
    as (t & w & Ht & Hw & Hlen & _ & _ & Hstuck).
  exists t, w. split; [exact Ht|]. split; [exact Hw|].
  split; [exact Hlen|exact Hstuck].
Defined.

(** ** What a philosopher holds, and when a meal is counted *)

Lemma holding_prefix (p : Philosopher) (pre rest : list instr) :
  cycle p = pre ++ rest ->
  exists first second,
    ((first = left_fork p /\ second = right_fork p) \/
     (first = right_fork p /\ second = left_fork p) \/
     (first = left_fork p /\ second = left_fork p))
    /\ (holding pre = [] \/ holding pre = [first] \/
        holding pre = [second; first]).
Proof.
  destruct (cycle_shape p) as (a & b & pause & -> & Hp & Hab).
  intros Hpre. exists a, b. split.
  - destruct Hab as [?|[?|(? & ? & _)]]; auto.
  - destruct Hp as [-> | ->]; simpl in Hpre;
      do 10 (destruct pre as [|? pre]; simplify_eq/=; auto).
Qed.

(** A philosopher holds at most two forks, and only its own left and right
    fork; and when no philosopher thread is alive, every lock is free. *)
Theorem philosophers_hold_only_their_forks (t : DiningTable) (w : world) :
  reachable t w ->
  (forall i th, threads w !! i = Some th ->
     (length (held th) <= 2)%nat
     /\ forall f, f ∈ held th ->
          f = left_fork (self th) \/ f = right_fork (self th))
  /\ (Forall (fun th => is_alive th = false) (threads w) -> locked w = ∅).
Proof.
  intros Hw. split.
  - intros i th Hi.
    pose proof (in_cycle_reachable t w Hw) as Hin.
    rewrite Forall_lookup in Hin. specialize (Hin i th Hi).
    pose proof (proj1 (basic_inv_reachable t w Hw) i th Hi) as (_ & _ & Hwb).
    unfold in_cycle in Hin.
    destruct (ctl th) as [| |rest| |]; try done;
      try (rewrite Hin; split; [simpl; lia|by intros f ?%elem_of_nil]).
    destruct Hin as (pre & Hc & ->).
    destruct (holding_prefix _ _ _ Hc) as (a & b & Hab & [->|[->| ->]]).
    + split; [simpl; lia|by intros f ?%elem_of_nil].
    + split; [simpl; lia|]. intros f ->%list_elem_of_singleton.
      destruct Hab as [[-> _]|[[-> _]|[-> _]]]; auto.
    + split; [simpl; lia|]. intros f Hf.
      rewrite elem_of_cons, list_elem_of_singleton in Hf.
      destruct Hab as [[-> ->]|[[-> ->]|[-> ->]]]; destruct Hf as [->| ->];
        auto.
  - intros Hdead. destruct (basic_inv_reachable t w Hw) as (Hok & Hl & _).
    apply set_eq. intros a. rewrite elem_of_empty, Hl. split; [|done].
    intros (i & th & Hi & Hh). rewrite Forall_lookup in Hdead.
    specialize (Hdead i th Hi). destruct (Hok i th Hi) as (_ & _ & Hwb).
    unfold holds in Hh. unfold is_alive in Hdead.
    destruct (ctl th); try done; rewrite Hwb in Hh;
      by apply elem_of_nil in Hh.
Qed.

Lemma philosophers_hold_only_their_forks_witness :
  exists (t : DiningTable) (w : world),
    setup (DiningTable_init 2 HIERARCHY 10) = Ok t
    /\ run_schedule
         [AMain; AMain;
          APhil 0 false; APhil 0 false; APhil 0 false; APhil 0 false;
          APhil 0 false; APhil 0 false; APhil 0 false; APhil 0 false;
          APhil 0 false;
          AMain; AMain; AMain; AMain; AMain;
          APhil 0 false; APhil 1 false]
         (initial_world t) = Some w
    /\ total_meals (report_results (threads w)) = 1
    /\ Forall (fun th => is_alive th = false) (threads w)
    /\ locked w = ∅.
Proof.
  eexists _, _. split; [apply setup_spec|]. run_to_world.
  split; [reflexivity|].
  assert (Forall (fun th => is_alive th = false)
            (threads ltac:(match type of Hrun with
                           | _ = Some ?w => exact w end))) as Hdead
    by (repeat constructor).
  split; [exact Hdead|].
  exact (proj2 (philosophers_hold_only_their_forks _ _ Hreach) Hdead).
Defined.

(** [meals_eaten] of a philosopher changes only by a step of its own
    thread, by one, and only while the thread is eating, holding both its
    forks. *)
Theorem meal_counted_only_while_eating (n : Z) (s : Strategy) (d : Z)
    (t : DiningTable) (w w' : world) (j : nat) (th th' : thread) :
  setup (DiningTable_init n s d) = Ok t ->
  reachable t w ->
  step w w' ->
  threads w !! j = Some th ->
  threads w' !! j = Some th' ->
  meals_eaten (self th') = meals_eaten (self th)
  \/ (meals_eaten (self th') = meals_eaten (self th) + 1
      /\ eating th = true
      /\ (held th = [right_fork (self th); left_fork (self th)] \/
          held th = [left_fork (self th); right_fork (self th)])
      /\ held th' = held th
      /\ exists time_up, phil_step j time_up w = Some w').
Proof.
  intros Ht Hw Hstep Hj Hj'.
  destruct Hstep as [w w' Hm|i time_up w w' Hp|e w Hm Hs].
  - left. destruct (main_step_frame _ _ Hm) as (_ & _ & _ & Hth).
    destruct (Hth j th' Hj') as (th0 & Hj0 & _ & _ & Hmeals & _).
    congruence.
  - pose proof Hp as Hp0. revert Hp Hj'. unfold phil_step.
    destruct (threads w !! i) as [ti|] eqn:Hi; [|discriminate].
    assert (forall t1,
              meals_eaten (self t1) = meals_eaten (self ti) ->
              <[i := t1]> (threads w) !! j = Some th' ->
              meals_eaten (self th') = meals_eaten (self th)) as Hsame.
    { intros t1 Hmeals Hj'.
      apply lookup_insert_inv in Hj' as [[-> ->]|[_ Hj']]; congruence. }
    destruct (ctl ti) as [| |[|ins rest]| |] eqn:Hctl; try discriminate.
    + destruct (loop_test (self ti) time_up); intros [= <-] Hj'; left;
        by eapply Hsame; [|exact Hj'].
    + intros [= <-] Hj'. left. by eapply Hsame; [|exact Hj'].
    + unfold exec_instr. destruct ins as [ms| |f|f].
      * intros [= <-] Hj'. left. by eapply Hsame; [|exact Hj'].
      * intros [= <-] Hj'. simpl in Hj'.
        apply lookup_insert_inv in Hj' as [[-> ->]|[_ Hj']];
          [|left; congruence].
        rewrite Hi in Hj. injection Hj as <-. right. simpl.
        assert (eating ti = true) as Heat
          by (unfold eating; by rewrite Hctl).
        destruct (eating_holds _ _ _ _ _ _ _ Ht Hw Hi Heat) as [Hh _].
        repeat split; try done. by exists time_up.
      * destruct (decide (fork_lock f ∈ locked w)); [discriminate|].
        intros [= <-] Hj'. left. by eapply Hsame; [|exact Hj'].
      * destruct (decide (fork_lock f ∈ locked w)); intros [= <-] Hj'; left;
          by eapply Hsame; [|exact Hj'].
  - left. simpl in Hj'. congruence.
Qed.

Lemma meal_counted_only_while_eating_witness :
  exists (t : DiningTable) (w w' : world) (th th' : thread),
    setup (DiningTable_init 3 HIERARCHY 10) = Ok t
    /\ run_schedule
         [AMain; AMain; AMain;
          APhil 0 false; APhil 0 false; APhil 0 false; APhil 0 false;
          APhil 0 false]
         (initial_world t) = Some w
    /\ phil_step 0 false w = Some w'
    /\ threads w !! 0%nat = Some th
    /\ threads w' !! 0%nat = Some th'
    /\ meals_eaten (self th) = 0
    /\ meals_eaten (self th') = 1
    /\ (meals_eaten (self th') = meals_eaten (self th)
        \/ (meals_eaten (self th') = meals_eaten (self th) + 1
            /\ eating th = true
            /\ (held th = [right_fork (self th); left_fork (self th)] \/
                held th = [left_fork (self th); right_fork (self th)])
            /\ held th' = held th
            /\ exists time_up, phil_step 0 time_up w = Some w')).
Proof.
  eexists _, _, _, _, _. split; [apply setup_spec|]. run_to_world.
  match goal with
  | |- phil_step ?i ?b ?w0 = Some ?w1 /\ _ =>
      assert (phil_step i b w0 = Some w1) as Hstep
        by (vm_compute; reflexivity)
  end.
  split; [exact Hstep|].
  split; [reflexivity|]. split; [reflexivity|].
  split; [reflexivity|]. split; [reflexivity|].
  exact (meal_counted_only_while_eating 3 HIERARCHY 10 _ _ _ 0%nat _ _
           (setup_spec 3 HIERARCHY 10) Hreach
           (step_phil _ _ _ _ Hstep) eq_refl eq_refl).
Defined.

(** ** The command line *)

Lemma lower_ascii_Strategy_value (s : Strategy) :
  lower_ascii (Strategy_value s) = Strategy_value s.
Proof. by destruct s. Qed.

Lemma lower_ascii_lowers_ascii : lowers_ascii lower_ascii.
Proof. by intros a _. Qed.

Lemma Strategy_of_value_not_other (name : string) (e : exn) :
  Strategy_of_value name = Raise e -> e = ValueError.
Proof. intros He. by apply Strategy_of_value_Raise in He as [-> _]. Qed.

(** How [main] chooses the strategy, whatever [str.lower] does: with a
    command-line argument the choice is made by the lower-cased first
    argument alone ([MODE] and any further arguments are ignored); without
    one, [MODE] is taken as it is, not lower-cased.  [main] either exits with
    status 1 or goes on to [start]; no exception escapes from the set-up.
    For an argument of ASCII characters, which [str.lower] lower-cases
    letter by letter, the name is accepted in any mix of upper and lower
    case, and only then. *)
Theorem main_strategy_choice (lower : string -> string) (MODE : string)
    (n d : Z) (prog a : string) (more : list string) :
  main lower MODE n d (prog :: a :: more) = main lower (lower a) n d []
  /\ main lower MODE n d [prog] = main lower MODE n d []
  /\ (forall s, lower a = Strategy_value s ->
        exists t, setup (DiningTable_init n s d) = Ok t
          /\ main lower MODE n d (prog :: a :: more)
               = Simulate (initial_world t))
  /\ (main lower MODE n d (prog :: a :: more) = SysExit 1 <->
      forall s, lower a <> Strategy_value s)
  /\ (main lower MODE n d [prog] = SysExit 1 <->
      forall s, MODE <> Strategy_value s)
  /\ (forall argv e, main lower MODE n d argv <> Uncaught e)
  /\ (forall argv status,
        main lower MODE n d argv = SysExit status -> status = 1)
  /\ (lowers_ascii lower -> is_ascii a = true ->
      (forall s, lower_ascii a = Strategy_value s ->
         exists t, setup (DiningTable_init n s d) = Ok t
           /\ main lower MODE n d (prog :: a :: more)
                = Simulate (initial_world t))
      /\ (main lower MODE n d (prog :: a :: more) = SysExit 1 <->
          forall s, lower_ascii a <> Strategy_value s)).
Proof.
  split; [reflexivity|]. split; [reflexivity|].
  assert (forall argv,
            (exists s t, strategy_name lower MODE argv = Strategy_value s
               /\ setup (DiningTable_init n s d) = Ok t
               /\ main lower MODE n d argv = Simulate (initial_world t))
            \/ (main lower MODE n d argv = SysExit 1
                /\ forall s, strategy_name lower MODE argv <> Strategy_value s))
    as Hcases.
  { intros argv. unfold main.
    destruct (Strategy_of_value (strategy_name lower MODE argv))
      as [s|e] eqn:Hs.
    - left. exists s. eexists. apply Strategy_of_value_Ok in Hs.
      split; [done|]. split; [apply setup_spec|]. by rewrite setup_spec.
    - right. apply Strategy_of_value_Raise in Hs as [-> Hs]. done. }
  assert (forall s, lower a = Strategy_value s ->
            exists t, setup (DiningTable_init n s d) = Ok t
              /\ main lower MODE n d (prog :: a :: more)
                   = Simulate (initial_world t)) as Hok.
  { intros s Hs. eexists. split; [apply setup_spec|].
    unfold main, strategy_name.
    rewrite (proj2 (Strategy_of_value_Ok _ s) Hs), setup_spec. done. }
  assert (main lower MODE n d (prog :: a :: more) = SysExit 1 <->
          forall s, lower a <> Strategy_value s) as Hexit.
  { destruct (Hcases (prog :: a :: more))
      as [(s & t & Hs & _ & Hm)|[Hm Hs]]; simpl in Hs.
    + rewrite Hm. split; [discriminate|]. intros Hno. by destruct (Hno s).
    + by rewrite Hm. }
  split; [exact Hok|]. split; [exact Hexit|].
  split; [|split; [|split]].
  - destruct (Hcases [prog]) as [(s & t & Hs & _ & Hm)|[Hm Hs]]; simpl in Hs.
    + rewrite Hm. split; [discriminate|]. intros Hno. by destruct (Hno s).
    + by rewrite Hm.
  - intros argv e. destruct (Hcases argv) as [(s & t & _ & _ & ->)|[-> _]];
      discriminate.
  - intros argv status.
    destruct (Hcases argv) as [(s & t & _ & _ & ->)|[-> _]]; congruence.
  - intros Hlow Ha. rewrite <- (Hlow a Ha). by split.
Qed.

Lemma main_strategy_choice_witness :
  lowers_ascii lower_ascii
  /\ is_ascii "HierArchy" = true
  /\ lower_ascii "HierArchy" = Strategy_value HIERARCHY
  /\ (exists t, setup (DiningTable_init 5 HIERARCHY 10) = Ok t
        /\ main lower_ascii "deadlock" 5 10
             ["dining_philosophers.py"; "HierArchy"; "x"]
             = Simulate (initial_world t))
  /\ main lower_ascii "HIERARCHY" 5 10 ["dining_philosophers.py"] = SysExit 1.
Proof.
  split; [exact lower_ascii_lowers_ascii|].
  split; [reflexivity|]. split; [reflexivity|]. split.
  - exact (proj1 (proj2 (proj2 (proj2 (proj2 (proj2 (proj2 (proj2
             (main_strategy_choice lower_ascii "deadlock" 5 10
                "dining_philosophers.py" "HierArchy" ["x"])))))))
             lower_ascii_lowers_ascii eq_refl) HIERARCHY eq_refl).
  - apply (proj2 (proj1 (proj2 (proj2 (proj2 (proj2
             (main_strategy_choice lower_ascii "HIERARCHY" 5 10
                "dining_philosophers.py" "x" []))))))).
    intros s. destruct s; discriminate.
Defined.

(** ** The only way the deadlock strategy gets stuck *)

Lemma deadlock_wait_position (th : thread) (f : Fork) (rest : list instr) :
  strategy (self th) = DEADLOCK -> in_cycle th ->
  ctl th = Body (Acquire f :: rest) ->
  (f = left_fork (self th) /\ held th = []) \/
  (f = right_fork (self th) /\ held th = [left_fork (self th)]).
Proof.
  intros Hs Hin Hctl. unfold in_cycle in Hin. rewrite Hctl in Hin.
  destruct Hin as (pre & Hc & ->). unfold cycle in Hc. rewrite Hs in Hc.
  unfold deadlock_strategy, with_lock, think, eat in Hc. simpl in Hc.
  do 9 (destruct pre as [|? pre]; simplify_eq/=;
        try (by left); try (by right)).
Qed.

Section stuck.
Variables (n d : Z) (t : DiningTable) (w : world).
Hypothesis Ht : setup (DiningTable_init n DEADLOCK d) = Ok t.
Hypothesis Hw : reachable t w.
Hypothesis Hstuck : ~ can_step w.

Lemma stuck_alive_waits (j : nat) (th : thread) :
  threads w !! j = Some th -> is_alive th = true ->
  exists f rest,
    ctl th = Body (Acquire f :: rest) /\ fork_lock f ∈ locked w
    /\ ((f = left_fork (self th) /\ held th = []) \/
        (f = right_fork (self th) /\ held th = [left_fork (self th)])).
Proof.
  intros Hj Halive.
  destruct (alive_steps_or_waits w j th Hj Halive)
    as [[w' Hw']|(f & rest & Hctl & Hin)];
    [destruct Hstuck; by exists j, false, w'|].
  exists f, rest. split; [done|]. split; [done|].
  apply (deadlock_wait_position th f rest); [|by eapply Forall_lookup_1;
    [apply (in_cycle_reachable t w Hw)|]|done].
  by destruct (thread_static _ _ _ _ _ _ _ Ht Hw Hj) as (_ & _ & _ & _ & ? & _).
Qed.

Lemma stuck_holder (a : nat) :
  a ∈ locked w ->
  exists th, threads w !! a = Some th /\ is_alive th = true
    /\ held th = [left_fork (self th)].
Proof.
  intros Ha.
  destruct (table_inv_reachable _ _ _ _ _ Ht Hw) as (Hok & Hl & _).
  apply Hl in Ha as (k & tk & Hk & Hh).
  assert (is_alive tk = true) as Halive.
  { destruct (Hok k tk Hk) as (_ & _ & Hwb). unfold holds in Hh.
    unfold is_alive. destruct (ctl tk); try done;
      rewrite Hwb in Hh; by apply elem_of_nil in Hh. }
  destruct (stuck_alive_waits k tk Hk Halive)
    as (f & rest & _ & _ & [[_ Hheld]|[_ Hheld]]);
    unfold holds in Hh; rewrite Hheld in Hh.
  - by apply elem_of_nil in Hh.
  - destruct (thread_static _ _ _ _ _ _ _ Ht Hw Hk) as (_ & _ & Hleft & _).
    rewrite Hleft in Hh. simpl in Hh.
    apply list_elem_of_singleton in Hh as ->. by exists tk.
Qed.

Lemma stuck_alive_state (j : nat) (th : thread) :
  threads w !! j = Some th -> is_alive th = true ->
  blocked w th /\ held th = [left_fork (self th)]
  /\ exists rest, ctl th = Body (Acquire (right_fork (self th)) :: rest).
Proof.
  intros Hj Halive.
  destruct (stuck_alive_waits j th Hj Halive)
    as (f & rest & Hctl & Hin & [[-> Hheld]|[-> Hheld]]).
  - destruct (thread_static _ _ _ _ _ _ _ Ht Hw Hj) as (_ & _ & Hleft & _).
    rewrite Hleft in Hin. simpl in Hin.
    destruct (stuck_holder j Hin) as (th' & Hj' & _ & Hheld').
    rewrite Hj in Hj'. injection Hj' as <-. congruence.
  - split; [by exists (right_fork (self th)), rest|]. split; [done|].
    by exists rest.
Qed.

Lemma stuck_next_alive (j : nat) (th : thread) :
  threads w !! j = Some th -> is_alive th = true ->
  exists th', threads w !! Z.to_nat ((Z.of_nat j + 1) mod n) = Some th'
    /\ is_alive th' = true.
Proof.
  intros Hj Halive.
  destruct (stuck_alive_state j th Hj Halive) as ((f & rest & Hctl & Hin) & _
    & rest' & Hctl').
  rewrite Hctl in Hctl'. injection Hctl' as -> _.
  destruct (thread_static _ _ _ _ _ _ _ Ht Hw Hj) as (_ & _ & _ & Hright & _).
  rewrite Hright in Hin. simpl in Hin.
  destruct (stuck_holder _ Hin) as (th' & Hj' & Halive' & _). by exists th'.
Qed.

Lemma stuck_all_alive (j : nat) (th : thread) (m : nat) :
  threads w !! j = Some th -> is_alive th = true ->
  exists th', threads w !! Z.to_nat ((Z.of_nat j + Z.of_nat m) mod n)
                = Some th'
    /\ is_alive th' = true.
Proof.
  intros Hj Halive.
  destruct (thread_static _ _ _ _ _ _ _ Ht Hw Hj) as (Hlt & _).
  induction m as [|m (th' & Hm & Halive')].
  - exists th. rewrite Z.add_0_r, Z.mod_small, Nat2Z.id by lia. done.
  - destruct (stuck_next_alive _ th' Hm Halive') as (th2 & H2 & Halive2).
    exists th2. split; [|done]. rewrite <- H2. f_equal. f_equal.
    rewrite Z2Nat.id by (apply Z.mod_pos_bound; lia).
    rewrite Z.add_mod_idemp_l by lia. f_equal. lia.
Qed.

End stuck.

(** Under the deadlock strategy a run gets stuck in one way only: if no
    philosopher thread can move, then either none is alive or all of them
    are in the circular wait, each holding its left fork and waiting for its
    right fork. *)
Theorem deadlock_strategy_stuck_only_in_circular_wait (n d : Z)
    (t : DiningTable) (w : world) :
  setup (DiningTable_init n DEADLOCK d) = Ok t ->
  reachable t w ->
  ~ can_step w ->
  Forall (fun th => is_alive th = false) (threads w)
  \/ Forall (fun th =>
               blocked w th /\ held th = [left_fork (self th)]
               /\ exists rest,
                    ctl th = Body (Acquire (right_fork (self th)) :: rest))
       (threads w).
Proof.
  intros Ht Hw Hstuck.
  destruct (alive_or_all_dead (threads w)) as [Hdead|(j & th & Hj & Halive)];
    [by left|right].
  apply Forall_lookup. intros i ti Hi.
  apply (stuck_alive_state n d t w Ht Hw Hstuck i ti Hi).
  destruct (thread_static _ _ _ _ _ _ _ Ht Hw Hj) as (Hjn & _).
  destruct (thread_static _ _ _ _ _ _ _ Ht Hw Hi) as (Hin & _).
  destruct (stuck_all_alive n d t w Ht Hw Hstuck j th
              (Z.to_nat ((Z.of_nat i - Z.of_nat j) mod n)) Hj Halive)
    as (th' & Hth' & Halive').
  assert (Z.to_nat ((Z.of_nat j
             + Z.of_nat (Z.to_nat ((Z.of_nat i - Z.of_nat j) mod n))) mod n)
          = i) as Hidx.
  { rewrite Z2Nat.id by (apply Z.mod_pos_bound; lia).
    rewrite Z.add_mod_idemp_r by lia.
    replace (Z.of_nat j + (Z.of_nat i - Z.of_nat j)) with (Z.of_nat i) by lia.
    rewrite Z.mod_small by lia. apply Nat2Z.id. }
  rewrite Hidx, Hi in Hth'. by injection Hth' as ->.
Qed.

Lemma deadlock_strategy_stuck_only_in_circular_wait_witness :
  exists (t : DiningTable) (w : world),
    setup (DiningTable_init 2 DEADLOCK 10) = Ok t
    /\ run_schedule
         [AMain; AMain;
          APhil 0 false; APhil 0 false; APhil 0 false; APhil 0 false;
          APhil 1 false; APhil 1 false; APhil 1 false; APhil 1 false]
         (initial_world t) = Some w
    /\ ~ can_step w
    /\ (Forall (fun th => is_alive th = false) (threads w)
        \/ Forall (fun th =>
                     blocked w th /\ held th = [left_fork (self th)]
                     /\ exists rest,
                          ctl th
                            = Body (Acquire (right_fork (self th)) :: rest))
             (threads w)).
Proof.
  eexists _, _. split; [apply setup_spec|]. run_to_world.
  match goal with
  | |- ~ can_step ?w0 /\ _ => assert (~ can_step w0) as Hstuck
  end.
  { intros (i & time_up & w' & Hstep).
    destruct i as [|[|i]]; vm_compute in Hstep; discriminate. }
  split; [exact Hstuck|].
  exact (deadlock_strategy_stuck_only_in_circular_wait 2 10 _ _
           (setup_spec 2 DEADLOCK 10) Hreach Hstuck).
Defined.

(** Under the hierarchy strategy with at least two philosophers the forks
    are taken in ascending order of their ids in every reachable state: a
    philosopher that is about to acquire a fork holds only forks with
    smaller ids. *)
Theorem hierarchy_acquires_ascending (n d : Z) (t : DiningTable) (w : world)
    (i : nat) (th : thread) (f : Fork) (rest : list instr) :
  2 <= n ->
  setup (DiningTable_init n HIERARCHY d) = Ok t ->
  reachable t w ->
  threads w !! i = Some th ->
  ctl th = Body (Acquire f :: rest) ->
  0 <= fork_id f < n
  /\ forall g, g ∈ held th -> fork_id g < fork_id f.
Proof.
  intros Hn Ht Hw Hi Hctl.
  destruct (hierarchy_inv_reachable n d t w Hn Ht Hw) as (Hok & _ & _).
  destruct (Hok i th Hi) as (_ & _ & Hwb). rewrite Hctl in Hwb.
  destruct Hwb as [[[Hf _] Hasc] _]. split; [done|].
  intros g Hg. rewrite Forall_forall in Hasc. by apply Hasc.
Qed.

Lemma hierarchy_acquires_ascending_witness :
  exists (t : DiningTable) (w : world) (th : thread),
    setup (DiningTable_init 3 HIERARCHY 10) = Ok t
    /\ run_schedule
         [AMain; AMain; AMain; APhil 2 false; APhil 2 false; APhil 2 false]
         (initial_world t) = Some w
    /\ threads w !! 2%nat = Some th
    /\ held th = [mkFork 0 0]
    /\ forall g, g ∈ held th -> fork_id g < 2.
Proof.
  eexists _, _, _. split; [apply setup_spec|]. run_to_world.
  split; [reflexivity|]. split; [reflexivity|].
  exact (proj2 (hierarchy_acquires_ascending 3 10 _ _ 2%nat _ (mkFork 2 2) _
                  ltac:(lia) (setup_spec 3 HIERARCHY 10) Hreach
                  eq_refl eq_refl)).
Defined.
